(** * A chess rule engine: the [ChessBoard] class of [game.py]

    The development embeds the board model, the per-piece movement rules,
    check / checkmate / stalemate detection and the move commit protocol of
    [src/game-1/game.py], and states the properties of the specification
    over that embedding.

    Conventions of the embedding.
    - Python integers are [Z]; rows and columns are never truncated.
    - The board is a list of rows, each a list of optional pieces, indexed
      the way Python indexes lists (negative indices count from the end,
      anything else out of range raises [IndexError]).
    - A method that only reads [self] is a function [ChessBoard -> Result _];
      a method that assigns to [self] is a computation in the monad [M],
      which threads the board object and keeps the state reached when an
      exception escapes.
    - A [Piece] object is referenced by exactly one board cell
      ([setup_board] creates one object per cell and a move relocates the
      reference), so a cell holds the piece's value; the assignment
      [piece.has_moved = True] is a write to the cell that references it. *)

From Stdlib Require Import ZArith Lia ZifyBool Bool String Ascii DecimalString.
From stdpp Require Import base list.

Local Open Scope Z_scope.

(** ** Exceptions and results *)

(** The Python exceptions the engine can raise.  [FuelExhausted] is not a
    Python exception: it is the answer of the bounded model of the [while]
    loop of [is_path_clear] when its bound is too small, and
    [is_path_clear_total] shows that it never arises on an 8x8 board. *)
Inductive Exn : Type :=
  | ValueError
  | TypeError
  | IndexError
  | AttributeError
  | FuelExhausted.

Inductive Result (A : Type) : Type :=
  | Ok (a : A)
  | Raise (e : Exn).

Arguments Ok {A} a.
Arguments Raise {A} e.

Definition rbind {A B} (r : Result A) (k : A -> Result B) : Result B :=
  match r with
  | Ok a => k a
  | Raise e => Raise e
  end.

Notation "'let?' x ':=' e 'in' k" := (rbind e (fun x => k))
  (at level 10, x pattern, e at level 100, k at level 200).

(** A [for] loop whose body may [return]: the body answers [Some v] for
    [return v] and [None] to go on with the next element. *)
Fixpoint for_in {A R} (l : list A) (body : A -> Result (option R))
  : Result (option R) :=
  match l with
  | [] => Ok None
  | x :: l' =>
      match body x with
      | Ok None => for_in l' body
      | Ok (Some v) => Ok (Some v)
      | Raise e => Raise e
      end
  end.

(** [range(8)] *)
Definition range8 : list Z := [0; 1; 2; 3; 4; 5; 6; 7].

(** ** Data model *)

Inductive Color : Type := WHITE | BLACK.

Inductive PieceType : Type := PAWN | ROOK | KNIGHT | BISHOP | QUEEN | KING.

Record Piece : Type := mkPiece {
  color : Color;
  piece_type : PieceType;
  has_moved : bool
}.

(** [Piece.__init__] *)
Definition new_Piece (c : Color) (t : PieceType) : Piece :=
  {| color := c; piece_type := t; has_moved := false |}.

Definition Color_eqb (a b : Color) : bool :=
  match a, b with
  | WHITE, WHITE | BLACK, BLACK => true
  | _, _ => false
  end.

Definition PieceType_eqb (a b : PieceType) : bool :=
  match a, b with
  | PAWN, PAWN | ROOK, ROOK | KNIGHT, KNIGHT
  | BISHOP, BISHOP | QUEEN, QUEEN | KING, KING => true
  | _, _ => false
  end.

(** A Python [str]: the sequence of its Unicode code points. *)
Definition str : Type := list N.

Definition pystr (s : string) : str :=
  map N_of_ascii (list_ascii_of_string s).

Abbreviation Row := (list (option Piece)).
Abbreviation Board := (list (list (option Piece))).

(** The dictionary appended to [move_history]. *)
Record MoveRecord : Type := mkMoveRecord {
  mr_from : str;
  mr_to : str;
  mr_piece : Piece;
  mr_captured : option Piece
}.

Record ChessBoard : Type := mkChessBoard {
  board : Board;
  current_player : Color;
  move_history : list MoveRecord
}.

Definition with_board (self : ChessBoard) (b : Board) : ChessBoard :=
  {| board := b;
     current_player := current_player self;
     move_history := move_history self |}.

(** ** Python list indexing *)

Definition py_norm_index (len i : Z) : Z :=
  if i <? 0 then i + len else i.

(** [l[i]] *)
Definition py_getitem {A} (l : list A) (i : Z) : Result A :=
  let n := Z.of_nat (length l) in
  let j := py_norm_index n i in
  if (0 <=? j) && (j <? n) then
    match l !! Z.to_nat j with
    | Some x => Ok x
    | None => Raise IndexError
    end
  else Raise IndexError.

(** [l[i] = v] *)
Definition py_setitem {A} (l : list A) (i : Z) (v : A) : Result (list A) :=
  let n := Z.of_nat (length l) in
  let j := py_norm_index n i in
  if (0 <=? j) && (j <? n) then Ok (<[Z.to_nat j := v]> l)
  else Raise IndexError.

(** [board[row][col]] *)
Definition board_get (b : Board) (row col : Z) : Result (option Piece) :=
  let? r := py_getitem b row in
  py_getitem r col.

(** [board[row][col] = v]: the row object is fetched, then updated in place. *)
Definition board_set (b : Board) (row col : Z) (v : option Piece)
  : Result Board :=
  let? r := py_getitem b row in
  let? r' := py_setitem r col v in
  py_setitem b row r'.

(** ** Queries of [ChessBoard] *)

Definition in_bounds (row col : Z) : bool :=
  (0 <=? row) && (row <? 8) && (0 <=? col) && (col <? 8).

Definition get_piece (self : ChessBoard) (row col : Z)
  : Result (option Piece) :=
  if in_bounds row col then board_get (board self) row col else Ok None.

Definition is_valid_position (row col : Z) : bool := in_bounds row col.

(** [0 if a == b else (1 if b > a else -1)] *)
Definition step_dir (a b : Z) : Z :=
  if a =? b then 0 else if b >? a then 1 else -1.

(** The [while] loop of [is_path_clear], bounded by [fuel] iterations. *)
Fixpoint is_path_clear_loop (fuel : nat) (b : Board)
    (row_dir col_dir current_row current_col to_row to_col : Z)
  : Result bool :=
  match fuel with
  | O => Raise FuelExhausted
  | S fuel' =>
      if negb ((current_row =? to_row) && (current_col =? to_col)) then
        let? cell := board_get b current_row current_col in
        match cell with
        | Some _ => Ok false
        | None =>
            is_path_clear_loop fuel' b row_dir col_dir
              (current_row + row_dir) (current_col + col_dir) to_row to_col
        end
      else Ok true
  end.

(** A walk that does not reach its target leaves the index range
    [-8 .. 7] of an 8x8 board after at most 16 steps. *)
Definition path_fuel : nat := 17.

Definition is_path_clear (self : ChessBoard)
    (from_row from_col to_row to_col : Z) : Result bool :=
  let row_dir := step_dir from_row to_row in
  let col_dir := step_dir from_col to_col in
  is_path_clear_loop path_fuel (board self) row_dir col_dir
    (from_row + row_dir) (from_col + col_dir) to_row to_col.

Definition is_none {A} (o : option A) : bool :=
  match o with
  | None => true
  | Some _ => false
  end.

Definition is_valid_pawn_move (self : ChessBoard)
    (from_row from_col to_row to_col : Z) : Result bool :=
  let? piece := get_piece self from_row from_col in
  match piece with
  | None => Raise AttributeError
  | Some piece =>
      let direction := if Color_eqb (color piece) WHITE then -1 else 1 in
      if from_col =? to_col then
        if to_row =? from_row + direction then
          let? dest := get_piece self to_row to_col in
          Ok (is_none dest)
        else if (to_row =? from_row + 2 * direction)
                && negb (has_moved piece) then
          let? dest := get_piece self to_row to_col in
          if is_none dest then
            let? mid := get_piece self (from_row + direction) from_col in
            Ok (is_none mid)
          else Ok false
        else Ok false
      else if (Z.abs (from_col - to_col) =? 1)
              && (to_row =? from_row + direction) then
        let? target_piece := get_piece self to_row to_col in
        match target_piece with
        | None => Ok false
        | Some t => Ok (negb (Color_eqb (color t) (color piece)))
        end
      else Ok false
  end.

Definition is_valid_rook_move (self : ChessBoard)
    (from_row from_col to_row to_col : Z) : Result bool :=
  if negb (from_row =? to_row) && negb (from_col =? to_col) then Ok false
  else is_path_clear self from_row from_col to_row to_col.

Definition is_valid_knight_move (from_row from_col to_row to_col : Z)
  : bool :=
  let row_diff := Z.abs (to_row - from_row) in
  let col_diff := Z.abs (to_col - from_col) in
  ((row_diff =? 2) && (col_diff =? 1))
  || ((row_diff =? 1) && (col_diff =? 2)).

Definition is_valid_bishop_move (self : ChessBoard)
    (from_row from_col to_row to_col : Z) : Result bool :=
  if negb (Z.abs (to_row - from_row) =? Z.abs (to_col - from_col))
  then Ok false
  else is_path_clear self from_row from_col to_row to_col.

Definition is_valid_queen_move (self : ChessBoard)
    (from_row from_col to_row to_col : Z) : Result bool :=
  let? r := is_valid_rook_move self from_row from_col to_row to_col in
  if r then Ok true
  else is_valid_bishop_move self from_row from_col to_row to_col.

Definition is_valid_king_move (from_row from_col to_row to_col : Z)
  : bool :=
  (Z.abs (to_row - from_row) <=? 1)
  && (Z.abs (to_col - from_col) <=? 1)
  && negb ((from_row =? to_row) && (from_col =? to_col)).

Definition is_valid_move (self : ChessBoard)
    (from_row from_col to_row to_col : Z) : Result bool :=
  let? piece := get_piece self from_row from_col in
  match piece with
  | None => Ok false
  | Some piece =>
      if negb (Color_eqb (color piece) (current_player self)) then Ok false
      else if negb (is_valid_position to_row to_col) then Ok false
      else
        let? dest_piece := get_piece self to_row to_col in
        let same_color :=
          match dest_piece with
          | Some d => Color_eqb (color d) (color piece)
          | None => false
          end in
        if same_color then Ok false
        else
          match piece_type piece with
          | PAWN => is_valid_pawn_move self from_row from_col to_row to_col
          | ROOK => is_valid_rook_move self from_row from_col to_row to_col
          | KNIGHT =>
              Ok (is_valid_knight_move from_row from_col to_row to_col)
          | BISHOP =>
              is_valid_bishop_move self from_row from_col to_row to_col
          | QUEEN => is_valid_queen_move self from_row from_col to_row to_col
          | KING => Ok (is_valid_king_move from_row from_col to_row to_col)
          end
  end.

Definition find_king (self : ChessBoard) (c : Color) : Result (Z * Z) :=
  let? found :=
    for_in range8 (fun row =>
      for_in range8 (fun col =>
        let? piece := board_get (board self) row col in
        match piece with
        | Some p =>
            if PieceType_eqb (piece_type p) KING && Color_eqb (color p) c
            then Ok (Some (row, col))
            else Ok None
        | None => Ok None
        end)) in
  match found with
  | Some rc => Ok rc
  | None => Raise ValueError
  end.

Definition is_in_check (self : ChessBoard) (c : Color) : Result bool :=
  let? (king_row, king_col) := find_king self c in
  let? found :=
    for_in range8 (fun row =>
      for_in range8 (fun col =>
        let? piece := board_get (board self) row col in
        match piece with
        | Some p =>
            if negb (Color_eqb (color p) c) then
              let? v := is_valid_move self row col king_row king_col in
              if v then Ok (Some true) else Ok None
            else Ok None
        | None => Ok None
        end)) in
  match found with
  | Some v => Ok v
  | None => Ok false
  end.

(** ** Methods that assign to [self] *)

(** A computation on the board object.  The state is returned in both
    outcomes: when an exception escapes, the assignments made before it
    stay. *)
Definition M (A : Type) : Type := ChessBoard -> ChessBoard * Result A.

Definition mret {A} (a : A) : M A := fun s => (s, Ok a).

Definition mraise {A} (e : Exn) : M A := fun s => (s, Raise e).

Definition mbind {A B} (m : M A) (k : A -> M B) : M B :=
  fun s =>
    match m s with
    | (s', Ok a) => k a s'
    | (s', Raise e) => (s', Raise e)
    end.

Notation "'do!' x ':=' e 'in' k" := (mbind e (fun x => k))
  (at level 10, x pattern, e at level 100, k at level 200).

(** A call of a method that only reads [self]. *)
Definition query {A} (f : ChessBoard -> Result A) : M A :=
  fun s => (s, f s).

(** [self.board[row][col]] *)
Definition read_cell (row col : Z) : M (option Piece) :=
  query (fun s => board_get (board s) row col).

(** [self.board[row][col] = v] *)
Definition write_cell (row col : Z) (v : option Piece) : M unit :=
  fun s =>
    match board_set (board s) row col v with
    | Ok b' => (with_board s b', Ok tt)
    | Raise e => (s, Raise e)
    end.

(** A [for] loop with assignments whose body may [return]. *)
Fixpoint for_in_M {A R} (l : list A) (body : A -> M (option R))
  : M (option R) :=
  match l with
  | [] => mret None
  | x :: l' =>
      do! r := body x in
      match r with
      | Some v => mret (Some v)
      | None => for_in_M l' body
      end
  end.

Definition would_be_in_check_after_move
    (from_row from_col to_row to_col : Z) : M bool :=
  do! original_piece := read_cell from_row from_col in
  do! captured_piece := read_cell to_row to_col in
  do! _ := write_cell to_row to_col original_piece in
  do! _ := write_cell from_row from_col None in
  do! in_check := query (fun s => is_in_check s (current_player s)) in
  do! _ := write_cell from_row from_col original_piece in
  do! _ := write_cell to_row to_col captured_piece in
  mret in_check.

(** *** Notation parsing *)

(** [str.lower()] of a one-character string: Python's table on the code
    points below U+0100 and on U+0130, whose lower case is two code points
    long.  Every other code point is left as it is, which differs from
    Python on the cased letters above U+00FF; none of those has a lower case
    in ['a' .. 'h'], so [position_to_coords] refuses them either way. *)
Definition py_lower (c : N) : str :=
  if ((65 <=? c) && (c <=? 90))%N then [(c + 32)%N]
  else if ((192 <=? c) && (c <=? 222) && negb (c =? 215))%N
       then [(c + 32)%N]
  else if (c =? 304)%N then [105%N; 775%N]
  else [c].

(** [ord(s)]: [TypeError] unless [s] is one character long. *)
Definition py_ord (s : str) : Result Z :=
  match s with
  | [c] => Ok (Z.of_N c)
  | _ => Raise TypeError
  end.

(** [int(c)] of a one-character string: Python's on the code points below
    U+0660, where the decimal digits are ['0' .. '9'].  Python also accepts
    the decimal digits of other scripts, from U+0660 on; they are outside
    this table. *)
Definition py_int (c : N) : Result Z :=
  if ((48 <=? c) && (c <=? 57))%N then Ok (Z.of_N c - 48)
  else Raise ValueError.

Definition position_to_coords (position : str) : Result (Z * Z) :=
  match position with
  | [c0; c1] =>
      let? o := py_ord (py_lower c0) in
      let col := o - 97 in
      let? d := py_int c1 in
      let row := 8 - d in
      if negb ((0 <=? row) && (row <? 8) && (0 <=? col) && (col <? 8))
      then Raise ValueError
      else Ok (row, col)
  | _ => Raise ValueError
  end.

Definition other_color (c : Color) : Color :=
  if Color_eqb c WHITE then BLACK else WHITE.

Definition mark_moved (p : Piece) : Piece :=
  {| color := color p; piece_type := piece_type p; has_moved := true |}.

(** The [try] block of [move_piece]: both positions are parsed and a
    [ValueError] is caught; any other exception escapes. *)
Definition parse_positions (from_pos to_pos : str)
  : Result (option (Z * Z * (Z * Z))) :=
  match position_to_coords from_pos with
  | Ok f =>
      match position_to_coords to_pos with
      | Ok t => Ok (Some (f, t))
      | Raise ValueError => Ok None
      | Raise e => Raise e
      end
  | Raise ValueError => Ok None
  | Raise e => Raise e
  end.

Definition move_piece (from_pos to_pos : str) : M bool :=
  do! parsed := query (fun _ => parse_positions from_pos to_pos) in
  match parsed with
  | None => mret false
  | Some ((from_row, from_col), (to_row, to_col)) =>
      do! valid :=
        query (fun s => is_valid_move s from_row from_col to_row to_col) in
      if negb valid then mret false
      else
        do! self_check :=
          would_be_in_check_after_move from_row from_col to_row to_col in
        if self_check then mret false
        else
          do! piece := read_cell from_row from_col in
          do! captured_piece := read_cell to_row to_col in
          do! _ := write_cell to_row to_col piece in
          do! _ := write_cell from_row from_col None in
          match piece with
          | None => mraise AttributeError
          | Some p =>
              do! _ := write_cell to_row to_col (Some (mark_moved p)) in
              fun s =>
                ({| board := board s;
                    current_player := other_color (current_player s);
                    move_history :=
                      move_history s ++
                      [{| mr_from := from_pos; mr_to := to_pos;
                          mr_piece := mark_moved p;
                          mr_captured := captured_piece |}] |},
                 Ok true)
          end
  end.

(** The enumeration shared by [is_checkmate] and [is_stalemate]: [Some false]
    as soon as a piece of [c] has a valid move that
    [would_be_in_check_after_move] does not refuse. *)
Definition try_all_moves (c : Color) : M (option bool) :=
  for_in_M range8 (fun from_row =>
    for_in_M range8 (fun from_col =>
      do! piece := read_cell from_row from_col in
      match piece with
      | Some p =>
          if Color_eqb (color p) c then
            for_in_M range8 (fun to_row =>
              for_in_M range8 (fun to_col =>
                do! valid :=
                  query (fun s =>
                    is_valid_move s from_row from_col to_row to_col) in
                if valid then
                  do! w :=
                    would_be_in_check_after_move
                      from_row from_col to_row to_col in
                  if negb w then mret (Some false) else mret None
                else mret None))
          else mret None
      | None => mret None
      end)).

Definition is_checkmate (c : Color) : M bool :=
  do! chk := query (fun s => is_in_check s c) in
  if negb chk then mret false
  else
    do! r := try_all_moves c in
    match r with
    | Some v => mret v
    | None => mret true
    end.

Definition is_stalemate (c : Color) : M bool :=
  do! chk := query (fun s => is_in_check s c) in
  if chk then mret false
  else
    do! r := try_all_moves c in
    match r with
    | Some v => mret v
    | None => mret true
    end.

(** *** Construction *)

(** A [for] loop without [return]. *)
Fixpoint for_each_M {A} (l : list A) (body : A -> M unit) : M unit :=
  match l with
  | [] => mret tt
  | x :: l' => do! _ := body x in for_each_M l' body
  end.

Definition piece_order : list PieceType :=
  [ROOK; KNIGHT; BISHOP; QUEEN; KING; BISHOP; KNIGHT; ROOK].

(** [enumerate(l)] *)
Definition enumerate {A} (l : list A) : list (Z * A) :=
  imap (fun i x => (Z.of_nat i, x)) l.

Definition setup_board : M unit :=
  do! _ :=
    for_each_M range8 (fun col =>
      do! _ := write_cell 1 col (Some (new_Piece BLACK PAWN)) in
      write_cell 6 col (Some (new_Piece WHITE PAWN))) in
  for_each_M (enumerate piece_order) (fun '(col, t) =>
    do! _ := write_cell 0 col (Some (new_Piece BLACK t)) in
    write_cell 7 col (Some (new_Piece WHITE t))).

(** [ChessBoard.__init__] *)
Definition new_ChessBoard : ChessBoard :=
  fst (setup_board
         {| board := replicate 8 (replicate 8 None);
            current_player := WHITE;
            move_history := [] |}).

(** A sequence of [move_piece] calls; the list of their answers, or the
    exception that stopped the sequence. *)
Fixpoint play_moves (moves : list (str * str)) : M (list bool) :=
  match moves with
  | [] => mret []
  | (f, t) :: rest =>
      do! r := move_piece f t in
      do! rs := play_moves rest in
      mret (r :: rs)
  end.

Definition mv (f t : string) : str * str := (pystr f, pystr t).

(** ** Formatting a position *)

(** The exceptions of [coords_to_position]: those of [chr] and [str]. *)
Inductive FormatError : Type :=
  | FormatValueError
  | FormatOverflowError.

(** [chr(i)]: [OverflowError] for an argument that does not fit a C [int],
    [ValueError] for one outside [range(0x110000)]. *)
Definition py_chr (i : Z) : FormatError + N :=
  if (i <? - 2 ^ 31) || (2 ^ 31 <=? i) then inl FormatOverflowError
  else if (i <? 0) || (1114112 <=? i) then inl FormatValueError
  else inr (Z.to_N i).

(** [str(i)] of an integer: its decimal digits, with [ValueError] past the
    4300 digits Python converts. *)
Definition py_str_int (i : Z) : FormatError + str :=
  if Z.abs i <? 10 ^ 4300
  then inr (pystr (NilZero.string_of_int (Z.to_int i)))
  else inl FormatValueError.

Definition coords_to_position (row col : Z) : FormatError + str :=
  match py_chr (97 + col) with
  | inl e => inl e
  | inr c =>
      match py_str_int (8 - row) with
      | inl e => inl e
      | inr digits => inr (c :: digits)
      end
  end.

(** [s.lower()], character by character. *)
Definition str_lower (s : str) : str := flat_map py_lower s.

(** ** Display *)

(** [Piece.__str__]: the white symbol of the kind, or the black one. *)
Definition Piece_str (p : Piece) : str :=
  let symbols : N * N :=
    match piece_type p with
    | PAWN => (9817, 9823)
    | ROOK => (9814, 9820)
    | KNIGHT => (9816, 9822)
    | BISHOP => (9815, 9821)
    | QUEEN => (9813, 9819)
    | KING => (9812, 9818)
    end%N in
  [if Color_eqb (color p) WHITE then fst symbols else snd symbols].

(** [str(n)] for a one-digit [n], as in [f"{8-row}"] with [row] in
    [range(8)]. *)
Definition digit_str (n : Z) : str := [Z.to_N (48 + n)].

(** [color.value.title()] *)
Definition Color_title (c : Color) : str :=
  match c with
  | WHITE => pystr "White"
  | BLACK => pystr "Black"
  end.

(** The text a method prints and how it ends: what was printed before an
    exception stays printed. *)
Definition Printed : Type := str * Result unit.

(** The [for col] loop of [display_board] on one row. *)
Fixpoint display_cells (b : Board) (row : Z) (cols : list Z) : Printed :=
  match cols with
  | [] => ([], Ok tt)
  | col :: rest =>
      match board_get b row col with
      | Raise e => ([], Raise e)
      | Ok piece =>
          let text :=
            match piece with
            | Some p => Piece_str p ++ pystr " "
            | None => 183%N :: pystr " "
            end in
          let '(out, r) := display_cells b row rest in
          (text ++ out, r)
      end
  end.

(** The [for row] loop of [display_board]. *)
Fixpoint display_rows (b : Board) (rows : list Z) : Printed :=
  match rows with
  | [] => ([], Ok tt)
  | row :: rest =>
      let label := digit_str (8 - row) in
      match display_cells b row range8 with
      | (out, Raise e) => (label ++ pystr " " ++ out, Raise e)
      | (out, Ok _) =>
          let line :=
            label ++ pystr " " ++ out ++ pystr " " ++ label ++ [10%N] in
          let '(out', r) := display_rows b rest in
          (line ++ out', r)
      end
  end.

Definition files_line : str := pystr "  a b c d e f g h".

Definition display_board (self : ChessBoard) : Printed :=
  let header := 10%N :: files_line ++ [10%N] in
  match display_rows (board self) range8 with
  | (out, Raise e) => (header ++ out, Raise e)
  | (out, Ok _) =>
      (header ++ out ++ files_line ++ [10%N]
       ++ 10%N :: pystr "Current player: "
       ++ Color_title (current_player self) ++ [10%N],
       Ok tt)
  end.

(** ** Notions used by the statements *)

(** The shape [__init__] gives the board and no method changes: eight rows
    of eight cells. *)
Definition wf_board (b : Board) : Prop :=
  length b = 8%nat /\ Forall (fun r : Row => length r = 8%nat) b.

(** The content of an in-bounds cell. *)
Definition cell (b : Board) (row col : Z) : option Piece :=
  match b !! Z.to_nat row with
  | Some r =>
      match r !! Z.to_nat col with
      | Some x => x
      | None => None
      end
  | None => None
  end.

(** The board after [board[row][col] = v], for an in-bounds cell. *)
Definition set_cell (b : Board) (row col : Z) (v : option Piece) : Board :=
  alter (fun r : Row => <[Z.to_nat col := v]> r) (Z.to_nat row) b.

(** The states of a game: the initial one and those [move_piece] commits. *)
Inductive reachable : ChessBoard -> Prop :=
  | reachable_init : reachable new_ChessBoard
  | reachable_move (s s' : ChessBoard) (from_pos to_pos : str) :
      reachable s ->
      move_piece from_pos to_pos s = (s', Ok true) ->
      reachable s'.

(** The board object with the turn given to [c]. *)
Definition with_player (self : ChessBoard) (c : Color) : ChessBoard :=
  {| board := board self;
     current_player := c;
     move_history := move_history self |}.

(** Check as the specification words it: some piece of the opposing colour
    has a move onto the King's square that passes the central preconditions
    (a piece on the origin, destination in bounds and not of the piece's own
    colour) and the piece's movement rule.  The rule is the source's
    [is_valid_move], asked as if it were the turn of the piece's owner. *)
Definition spec_in_check (self : ChessBoard) (c : Color) : Result bool :=
  let? (king_row, king_col) := find_king self c in
  let? found :=
    for_in range8 (fun row =>
      for_in range8 (fun col =>
        let? piece := board_get (board self) row col in
        match piece with
        | Some p =>
            if negb (Color_eqb (color p) c) then
              let? v :=
                is_valid_move (with_player self (color p))
                  row col king_row king_col in
              if v then Ok (Some true) else Ok None
            else Ok None
        | None => Ok None
        end)) in
  match found with
  | Some v => Ok v
  | None => Ok false
  end.

(** Forward for a pawn: rows decrease for White and increase for Black. *)
Definition pawn_direction (c : Color) : Z :=
  match c with
  | WHITE => -1
  | BLACK => 1
  end.

(** The pawn rule as the specification words it, for a pawn [p] on
    [(from_row, from_col)]: one square forward into an empty cell, two
    squares forward unmoved through two empty cells, or one square
    diagonally forward onto an opposing piece. *)
Definition pawn_rule (b : Board) (p : Piece)
    (from_row from_col to_row to_col : Z) : Prop :=
  let d := pawn_direction (color p) in
  (from_col = to_col /\ to_row = from_row + d /\
   cell b to_row to_col = None)
  \/ (from_col = to_col /\ to_row = from_row + 2 * d /\
      has_moved p = false /\
      cell b to_row to_col = None /\
      cell b (from_row + d) from_col = None)
  \/ (Z.abs (from_col - to_col) = 1 /\ to_row = from_row + d /\
      exists q, cell b to_row to_col = Some q /\ color q <> color p).

(** Two positions on one row, one column or one diagonal. *)
Definition aligned (r1 c1 r2 c2 : Z) : Prop :=
  r1 = r2 \/ c1 = c2 \/ Z.abs (r1 - r2) = Z.abs (c1 - c2).

(** [n] calls of [would_be_in_check_after_move] in a row; the answer of the
    last one, or the exception that stopped the sequence. *)
Fixpoint repeat_would_be_in_check (n : nat)
    (from_row from_col to_row to_col : Z) : M bool :=
  match n with
  | O => would_be_in_check_after_move from_row from_col to_row to_col
  | S n' =>
      do! _ := would_be_in_check_after_move from_row from_col to_row to_col in
      repeat_would_be_in_check n' from_row from_col to_row to_col
  end.

(** The board on which [would_be_in_check_after_move] asks for check. *)
Definition tentative_board (b : Board) (fr fc tr tc : Z) : Board :=
  set_cell (set_cell b tr tc (cell b fr fc)) fr fc None.

(** The board a committed move leaves. *)
Definition committed_board (b : Board) (fr fc tr tc : Z) (p : Piece)
  : Board :=
  set_cell (set_cell (set_cell b tr tc (Some p)) fr fc None)
           tr tc (Some (mark_moved p)).

(** Fool's mate: White is to move with the black Queen on h4 facing the
    King on e1 along the empty diagonal g3, f2. *)
Definition fools_mate : list (str * str) :=
  [mv "f2" "f3"; mv "e7" "e5"; mv "g2" "g4"; mv "d8" "h4"].

(** Scholar's mate, as the specification lists it. *)
Definition scholars_mate : list (str * str) :=
  [mv "e2" "e4"; mv "e7" "e5"; mv "f1" "c4"; mv "b8" "c6";
   mv "d1" "h5"; mv "g8" "f6"; mv "h5" "f7"].

(** A string of ASCII characters. *)
Definition is_ascii (s : str) : Prop := Forall (fun c => (c < 128)%N) s.

(** A file letter ['a'..'h'] or ['A'..'H'] followed by a rank digit
    ['1'..'8']. *)
Definition is_square_name (s : str) : Prop :=
  exists c0 c1,
    s = [c0; c1] /\
    ((97 <= c0 <= 104)%N \/ (65 <= c0 <= 72)%N) /\
    (49 <= c1 <= 56)%N.

(** Every cell strictly between two positions on one row, column or
    diagonal is empty. *)
Definition between_empty (b : Board) (r1 c1 r2 c2 : Z) : Prop :=
  forall j,
    0 < j < Z.max (Z.abs (r2 - r1)) (Z.abs (c2 - c1)) ->
    cell b (r1 + j * Z.sgn (r2 - r1)) (c1 + j * Z.sgn (c2 - c1)) = None.

(** The cell holds a King of colour [c]. *)
Definition king_at (b : Board) (c : Color) (row col : Z) : Prop :=
  exists p, cell b row col = Some p /\ piece_type p = KING /\ color p = c.

(** Cell [(r1, c1)] comes before [(r2, c2)] in the order of the scans: row
    by row from row 0, each row from column 0. *)
Definition scanned_before (r1 c1 r2 c2 : Z) : Prop :=
  r1 < r2 \/ (r1 = r2 /\ c1 < c2).

(** The state a committed move of piece [p] leaves. *)
Definition committed_state (s : ChessBoard) (from_pos to_pos : str)
    (fr fc tr tc : Z) (p : Piece) : ChessBoard :=
  {| board := committed_board (board s) fr fc tr tc p;
     current_player := other_color (current_player s);
     move_history :=
       move_history s ++
       [{| mr_from := from_pos; mr_to := to_pos;
           mr_piece := mark_moved p;
           mr_captured := cell (board s) tr tc |}] |}.

(** The enumeration of [is_checkmate] and [is_stalemate], level by level:
    one candidate move, the candidates of one origin, one origin cell. *)
Definition try_move (fr fc tr tc : Z) : M (option bool) :=
  do! valid := query (fun s => is_valid_move s fr fc tr tc) in
  if valid then
    do! w := would_be_in_check_after_move fr fc tr tc in
    if negb w then mret (Some false) else mret None
  else mret None.

Definition try_moves_from (fr fc : Z) : M (option bool) :=
  for_in_M range8 (fun to_row =>
    for_in_M range8 (fun to_col => try_move fr fc to_row to_col)).

Definition try_cell (c : Color) (fr fc : Z) : M (option bool) :=
  do! piece := read_cell fr fc in
  match piece with
  | Some p =>
      if Color_eqb (color p) c then try_moves_from fr fc else mret None
  | None => mret None
  end.

(** The character [display_board] prints for a cell. *)
Definition cell_symbol (o : option Piece) : N :=
  match o with
  | Some p =>
      match Piece_str p with
      | c :: _ => c
      | [] => 0%N
      end
  | None => 183%N
  end.

(** Colour and kind of what a cell holds: what the display shows of it. *)
Definition piece_view (o : option Piece) : option (Color * PieceType) :=
  match o with
  | Some p => Some (color p, piece_type p)
  | None => None
  end.

(** The text of the display, cell by cell. *)
Definition display_line (b : Board) (row : Z) : str :=
  digit_str (8 - row) ++ pystr " "
  ++ flat_map (fun col => [cell_symbol (cell b row col); 32%N]) range8
  ++ pystr " " ++ digit_str (8 - row) ++ [10%N].

Definition display_text (b : Board) (c : Color) : str :=
  (10%N :: files_line ++ [10%N])
  ++ flat_map (display_line b) range8
  ++ files_line ++ [10%N]
  ++ 10%N :: pystr "Current player: " ++ Color_title c ++ [10%N].

(** ** Python indexing inside and outside the index range *)

Section PyIndex.

Context {A : Type}.
Variable l : list A.

Lemma py_getitem_ok (i : Z) (x : A) :
  0 <= i -> l !! Z.to_nat i = Some x -> py_getitem l i = Ok x.
Proof.
  intros Hi Hx. unfold py_getitem, py_norm_index.
  pose proof (lookup_lt_Some _ _ _ Hx) as Hlt.
  destruct (i <? 0) eqn:E; [lia|].
  destruct ((0 <=? i) && (i <? Z.of_nat (length l))) eqn:E'; [|lia].
  rewrite Hx. reflexivity.
Qed.

Lemma py_setitem_ok (i : Z) (v : A) :
  0 <= i < Z.of_nat (length l) ->
  py_setitem l i v = Ok (<[Z.to_nat i := v]> l).
Proof.
  intros Hi. unfold py_setitem, py_norm_index.
  destruct (i <? 0) eqn:E; [lia|].
  destruct ((0 <=? i) && (i <? Z.of_nat (length l))) eqn:E'; [|lia].
  reflexivity.
Qed.

Lemma py_getitem_error (i : Z) :
  ~ (- Z.of_nat (length l) <= i < Z.of_nat (length l)) ->
  py_getitem l i = Raise IndexError.
Proof.
  intros Hi. unfold py_getitem, py_norm_index.
  destruct (i <? 0) eqn:E.
  - destruct ((0 <=? i + Z.of_nat (length l))
              && (i + Z.of_nat (length l) <? Z.of_nat (length l))) eqn:E';
      [lia | reflexivity].
  - destruct ((0 <=? i) && (i <? Z.of_nat (length l))) eqn:E';
      [lia | reflexivity].
Qed.

Lemma py_getitem_wraps (i : Z) :
  - Z.of_nat (length l) <= i < Z.of_nat (length l) ->
  exists x, py_getitem l i = Ok x.
Proof.
  intros Hi. unfold py_getitem, py_norm_index.
  set (j := if i <? 0 then i + Z.of_nat (length l) else i).
  assert (Hj : 0 <= j < Z.of_nat (length l))
    by (subst j; destruct (i <? 0) eqn:E; lia).
  destruct ((0 <=? j) && (j <? Z.of_nat (length l))) eqn:E'; [|lia].
  destruct (l !! Z.to_nat j) as [x|] eqn:Ex; [eauto|].
  apply lookup_ge_None_1 in Ex. lia.
Qed.

End PyIndex.

(** ** Board access on a well-formed board *)

Section BoardAccess.

Variable b : Board.
Hypothesis Hwf : wf_board b.

Lemma in_bounds_spec (row col : Z) :
  in_bounds row col = true <-> 0 <= row < 8 /\ 0 <= col < 8.
Proof. unfold in_bounds. lia. Qed.

Lemma wf_length : length b = 8%nat.
Proof. exact (proj1 Hwf). Qed.

Lemma wf_row (i : nat) (r : Row) : b !! i = Some r -> length r = 8%nat.
Proof.
  intros Hi. pose proof (proj2 Hwf) as Hrows.
  rewrite Forall_lookup in Hrows. exact (Hrows i r Hi).
Qed.

Lemma wf_lookup_row (row : Z) :
  0 <= row < 8 -> exists r, b !! Z.to_nat row = Some r /\ length r = 8%nat.
Proof.
  intros Hr. destruct (b !! Z.to_nat row) as [r|] eqn:E.
  - exists r. split; [reflexivity | exact (wf_row _ _ E)].
  - apply lookup_ge_None_1 in E. rewrite wf_length in E. lia.
Qed.

Lemma wf_lookup_cell (r : Row) (col : Z) :
  length r = 8%nat -> 0 <= col < 8 -> exists x, r !! Z.to_nat col = Some x.
Proof.
  intros Hl Hc. destruct (r !! Z.to_nat col) as [x|] eqn:E; [eauto|].
  apply lookup_ge_None_1 in E. lia.
Qed.

Lemma board_get_cell (row col : Z) :
  in_bounds row col = true -> board_get b row col = Ok (cell b row col).
Proof.
  intros Hb. apply in_bounds_spec in Hb. destruct Hb as [Hr Hc].
  destruct (wf_lookup_row row Hr) as (r & Er & Hlr).
  destruct (wf_lookup_cell r col Hlr Hc) as (x & Ex).
  unfold board_get, cell.
  rewrite (py_getitem_ok b row r) by (lia || exact Er).
  cbn [rbind]. rewrite Er, Ex.
  apply py_getitem_ok; [lia | exact Ex].
Qed.

(** Outside the index range [-8 .. 7] Python raises [IndexError]. *)
Lemma board_get_index_error (row col : Z) :
  ~ (-8 <= row < 8 /\ -8 <= col < 8) ->
  board_get b row col = Raise IndexError.
Proof.
  intros Hout. unfold board_get.
  destruct (decide (-8 <= row < 8)) as [Hr|Hr].
  - destruct (py_getitem_wraps b row) as (r & Er);
      [rewrite wf_length; lia|].
    rewrite Er. cbn [rbind].
    assert (Hlr : length r = 8%nat).
    { unfold py_getitem in Er.
      destruct (_ && _); [|discriminate].
      destruct (b !! _) as [r'|] eqn:E; [|discriminate].
      injection Er as <-. exact (wf_row _ _ E). }
    apply py_getitem_error. rewrite Hlr. lia.
  - rewrite py_getitem_error by (rewrite wf_length; lia). reflexivity.
Qed.

(** Inside it the access answers: a negative index counts from the end. *)
Lemma board_get_wraps (row col : Z) :
  -8 <= row < 8 -> -8 <= col < 8 ->
  exists v, board_get b row col = Ok v.
Proof.
  intros Hr Hc. unfold board_get.
  destruct (py_getitem_wraps b row) as (r & Er);
    [rewrite wf_length; lia|].
  rewrite Er. cbn [rbind].
  assert (Hlr : length r = 8%nat).
  { unfold py_getitem in Er.
    destruct (_ && _); [|discriminate].
    destruct (b !! _) as [r'|] eqn:E; [|discriminate].
    injection Er as <-. exact (wf_row _ _ E). }
  apply py_getitem_wraps. rewrite Hlr. lia.
Qed.

Lemma board_set_cell (row col : Z) (v : option Piece) :
  in_bounds row col = true ->
  board_set b row col v = Ok (set_cell b row col v).
Proof.
  intros Hb. apply in_bounds_spec in Hb. destruct Hb as [Hr Hc].
  destruct (wf_lookup_row row Hr) as (r & Er & Hlr).
  unfold board_set, set_cell.
  rewrite (py_getitem_ok b row r) by (lia || exact Er).
  cbn [rbind]. rewrite py_setitem_ok by lia.
  cbn [rbind]. rewrite py_setitem_ok by (rewrite wf_length; lia).
  f_equal. apply list_eq. intros i.
  destruct (decide (i = Z.to_nat row)) as [->|Hne].
  - rewrite list_lookup_insert_eq by (rewrite wf_length; lia).
    rewrite list_lookup_alter_eq, Er. reflexivity.
  - rewrite list_lookup_insert_ne by congruence.
    rewrite list_lookup_alter_ne by congruence. reflexivity.
Qed.

Lemma wf_set_cell (row col : Z) (v : option Piece) :
  wf_board (set_cell b row col v).
Proof.
  pose proof Hwf as [Hlen Hrows]. unfold set_cell. split.
  - rewrite length_alter. exact Hlen.
  - rewrite Forall_lookup in *. intros i r Hi.
    destruct (decide (i = Z.to_nat row)) as [->|Hne].
    + rewrite list_lookup_alter_eq in Hi.
      destruct (b !! Z.to_nat row) as [r0|] eqn:E; [|discriminate].
      cbn in Hi. injection Hi as <-. rewrite length_insert. eauto.
    + rewrite list_lookup_alter_ne in Hi by congruence. eauto.
Qed.

Lemma cell_set_cell (row col row' col' : Z) (v : option Piece) :
  in_bounds row col = true -> in_bounds row' col' = true ->
  cell (set_cell b row col v) row' col' =
  if decide (row = row' /\ col = col') then v else cell b row' col'.
Proof.
  intros H1 H2. apply in_bounds_spec in H1, H2.
  unfold cell, set_cell.
  destruct (decide (Z.to_nat row = Z.to_nat row')) as [Er|Er].
  - rewrite <- Er, list_lookup_alter_eq.
    destruct (b !! Z.to_nat row) as [r|] eqn:E.
    + cbn. destruct (decide (Z.to_nat col = Z.to_nat col')) as [Ec|Ec].
      * rewrite <- Ec, list_lookup_insert_eq
          by (rewrite (wf_row _ _ E); lia).
        destruct (decide _) as [_|Hn]; [reflexivity|]. lia.
      * rewrite list_lookup_insert_ne by exact Ec.
        destruct (decide _) as [[_ Hc]|_]; [|reflexivity]. lia.
    + apply lookup_ge_None_1 in E. rewrite wf_length in E. lia.
  - rewrite list_lookup_alter_ne by exact Er.
    destruct (decide _) as [[Hr _]|_]; [|reflexivity]. lia.
Qed.

End BoardAccess.

(** Two well-formed boards with the same cells are the same board. *)
Lemma board_ext (b1 b2 : Board) :
  wf_board b1 -> wf_board b2 ->
  (forall row col, in_bounds row col = true ->
                   cell b1 row col = cell b2 row col) ->
  b1 = b2.
Proof.
  intros Hwf1 Hwf2 Hcells.
  pose proof Hwf1 as [Hl1 _]. pose proof Hwf2 as [Hl2 _].
  apply (list_eq_same_length b1 b2 8); [exact Hl2 | exact Hl1 |].
  intros i r1 r2 Hi E1 E2.
  pose proof (wf_row b1 Hwf1 _ _ E1) as Hr1.
  pose proof (wf_row b2 Hwf2 _ _ E2) as Hr2.
  apply (list_eq_same_length r1 r2 8); [exact Hr2 | exact Hr1 |].
  intros j x y Hj Ex Ey.
  specialize (Hcells (Z.of_nat i) (Z.of_nat j)).
  unfold cell in Hcells. rewrite !Nat2Z.id, E1, E2, Ex, Ey in Hcells.
  apply Hcells. apply in_bounds_spec. lia.
Qed.

(** ** The initial position *)

Lemma new_ChessBoard_board :
  board new_ChessBoard =
  let bp t := Some (new_Piece BLACK t) in
  let wp t := Some (new_Piece WHITE t) in
  [ map bp piece_order;
    replicate 8 (bp PAWN);
    replicate 8 None; replicate 8 None; replicate 8 None; replicate 8 None;
    replicate 8 (wp PAWN);
    map wp piece_order ].
Proof. reflexivity. Qed.

Lemma wf_new_ChessBoard : wf_board (board new_ChessBoard).
Proof. split; [vm_compute; reflexivity | vm_compute; repeat constructor]. Qed.

(** ** Elementary facts *)

Lemma Color_eqb_eq (a b : Color) : Color_eqb a b = true <-> a = b.
Proof. destruct a, b; cbn; split; congruence. Qed.

Lemma Color_eqb_refl (a : Color) : Color_eqb a a = true.
Proof. destruct a; reflexivity. Qed.

Lemma Color_eqb_neq (a b : Color) : Color_eqb a b = false <-> a <> b.
Proof. destruct a, b; cbn; split; congruence. Qed.

Lemma with_player_current (self : ChessBoard) :
  with_player self (current_player self) = self.
Proof. destruct self; reflexivity. Qed.

Lemma for_in_ext {A R} (l : list A) (f g : A -> Result (option R)) :
  (forall x, x ∈ l -> f x = g x) -> for_in l f = for_in l g.
Proof.
  induction l as [|x l IH]; intros H; [reflexivity|].
  cbn. rewrite (H x) by left.
  rewrite IH; [reflexivity|]. intros y Hy. apply H. right. exact Hy.
Qed.

(** A loop none of whose iterations returns does not return. *)
Lemma for_in_no_return {A R} (l : list A) (f : A -> Result (option R)) :
  (forall x v, x ∈ l -> f x <> Ok (Some v)) ->
  forall v, for_in l f <> Ok (Some v).
Proof.
  induction l as [|x l IH]; intros H v; [discriminate|].
  cbn. destruct (f x) as [[w|]|e] eqn:E.
  - exfalso. exact (H x w ltac:(left) E).
  - apply IH. intros y w Hy. apply H. right. exact Hy.
  - discriminate.
Qed.

Lemma range8_in_bounds (row col : Z) :
  row ∈ range8 -> col ∈ range8 -> in_bounds row col = true.
Proof.
  unfold range8. rewrite !elem_of_cons, !elem_of_nil.
  intros Hr Hc. apply andb_true_iff; split; [apply andb_true_iff; split|];
    [apply andb_true_iff; split|..]; lia.
Qed.

(** ** The turn test inside check detection *)

(** [is_valid_move] answers [False] for a piece that is not of the colour
    to move, whatever the target. *)
Lemma is_valid_move_not_turn (self : ChessBoard) (row col tr tc : Z)
    (p : Piece) :
  get_piece self row col = Ok (Some p) ->
  color p <> current_player self ->
  is_valid_move self row col tr tc = Ok false.
Proof.
  intros Hp Hc. unfold is_valid_move. rewrite Hp. cbn [rbind].
  apply Color_eqb_neq in Hc. rewrite Hc. reflexivity.
Qed.

(** Consequently [is_in_check] never answers [True] for the colour to
    move: every opposing piece fails the turn test. *)
Lemma is_in_check_current_player (self : ChessBoard) :
  is_in_check self (current_player self) <> Ok true.
Proof.
  unfold is_in_check.
  destruct (find_king self (current_player self)) as [[kr kc]|e];
    [|discriminate].
  cbn [rbind].
  match goal with
  | |- rbind ?m _ <> _ => destruct m as [[v|]|e] eqn:E
  end; cbn [rbind]; try discriminate.
  exfalso. revert E. apply for_in_no_return. intros row w Hrow.
  apply for_in_no_return. intros col w' Hcol.
  destruct (board_get (board self) row col) as [[p|]|e] eqn:Eg;
    cbn [rbind]; try discriminate.
  destruct (negb (Color_eqb (color p) (current_player self))) eqn:Ec;
    [|discriminate].
  rewrite (is_valid_move_not_turn self row col kr kc p).
  - discriminate.
  - unfold get_piece. rewrite (range8_in_bounds _ _ Hrow Hcol). exact Eg.
  - apply Color_eqb_neq. destruct (Color_eqb _ _); [discriminate|reflexivity].
Qed.

(** For the colour that is not to move, [is_in_check] is check as the
    specification words it. *)
Lemma is_in_check_other_player (self : ChessBoard) (c : Color) :
  c <> current_player self ->
  is_in_check self c = spec_in_check self c.
Proof.
  intros Hc. unfold is_in_check, spec_in_check.
  destruct (find_king self c) as [[kr kc]|e]; cbn [rbind]; [|reflexivity].
  match goal with
  | |- rbind ?a _ = rbind ?a' _ => assert (E : a = a')
  end; [|rewrite E; reflexivity].
  apply for_in_ext. intros row _. apply for_in_ext. intros col _.
  destruct (board_get (board self) row col) as [[p|]|e]; cbn [rbind];
    [|reflexivity|reflexivity].
  destruct (Color_eqb (color p) c) eqn:Ec; cbn [negb]; [reflexivity|].
  assert (Hcp : color p = current_player self).
  { apply Color_eqb_neq in Ec.
    destruct (color p), c, (current_player self); congruence. }
  rewrite Hcp, with_player_current. reflexivity.
Qed.

(** ** The simulated move *)

Lemma write_cell_player (row col : Z) (v : option Piece)
    (s s' : ChessBoard) (r : Result unit) :
  write_cell row col v s = (s', r) -> current_player s' = current_player s.
Proof.
  unfold write_cell. destruct (board_set _ _ _ _); intros [= <- _];
    reflexivity.
Qed.

(** [would_be_in_check_after_move] asks [is_in_check] about the colour to
    move, so it never answers [True]. *)
Lemma would_be_in_check_never_true (fr fc tr tc : Z) (s : ChessBoard) :
  snd (would_be_in_check_after_move fr fc tr tc s) <> Ok true.
Proof.
  unfold would_be_in_check_after_move, mbind, read_cell, query, mret.
  destruct (board_get (board s) fr fc) as [orig|e]; [|discriminate].
  destruct (board_get (board s) tr tc) as [capt|e]; [|discriminate].
  destruct (write_cell tr tc orig s) as [s1 [[]|e]] eqn:E1; [|discriminate].
  destruct (write_cell fr fc None s1) as [s2 [[]|e]] eqn:E2; [|discriminate].
  destruct (is_in_check s2 (current_player s2)) as [chk|e] eqn:E3;
    [|discriminate].
  destruct (write_cell fr fc orig s2) as [s3 [[]|e]] eqn:E4; [|discriminate].
  destruct (write_cell tr tc capt s3) as [s4 [[]|e]] eqn:E5; [|discriminate].
  cbn. intros [= ->]. exact (is_in_check_current_player s2 E3).
Qed.

Lemma with_board_board (s : ChessBoard) : with_board s (board s) = s.
Proof. destruct s; reflexivity. Qed.

Lemma write_cell_in_bounds (row col : Z) (v : option Piece)
    (s : ChessBoard) :
  wf_board (board s) -> in_bounds row col = true ->
  write_cell row col v s = (with_board s (set_cell (board s) row col v), Ok tt).
Proof.
  intros Hwf Hb. unfold write_cell.
  rewrite (board_set_cell _ Hwf) by exact Hb. reflexivity.
Qed.

(** Moving a piece and putting both cells back gives the board back, also
    when origin and destination coincide. *)
Lemma set_cell_restore (b : Board) (fr fc tr tc : Z) :
  wf_board b -> in_bounds fr fc = true -> in_bounds tr tc = true ->
  set_cell
    (set_cell
       (set_cell (set_cell b tr tc (cell b fr fc)) fr fc None)
       fr fc (cell b fr fc))
    tr tc (cell b tr tc) = b.
Proof.
  intros Hwf Hf Ht.
  pose proof (wf_set_cell _ Hwf tr tc (cell b fr fc)) as Hwf1.
  pose proof (wf_set_cell _ Hwf1 fr fc None) as Hwf2.
  pose proof (wf_set_cell _ Hwf2 fr fc (cell b fr fc)) as Hwf3.
  pose proof (wf_set_cell _ Hwf3 tr tc (cell b tr tc)) as Hwf4.
  apply board_ext; [exact Hwf4 | exact Hwf |].
  intros row col Hb.
  rewrite (cell_set_cell _ Hwf3), (cell_set_cell _ Hwf2),
    (cell_set_cell _ Hwf1), (cell_set_cell _ Hwf) by assumption.
  repeat destruct (decide _); try reflexivity;
    repeat match goal with H : _ /\ _ |- _ => destruct H end;
    subst; try reflexivity; tauto.
Qed.

(** What one call does: when [is_in_check] answers, the two cells are
    written back; when it raises, they are not. *)
Lemma would_be_in_check_after_move_spec (fr fc tr tc : Z) (s : ChessBoard) :
  wf_board (board s) ->
  in_bounds fr fc = true -> in_bounds tr tc = true ->
  would_be_in_check_after_move fr fc tr tc s =
  let s2 := with_board s (tentative_board (board s) fr fc tr tc) in
  match is_in_check s2 (current_player s) with
  | Ok v => (s, Ok v)
  | Raise e => (s2, Raise e)
  end.
Proof.
  intros Hwf Hf Ht.
  pose proof (wf_set_cell _ Hwf tr tc (cell (board s) fr fc)) as Hwf1.
  pose proof (wf_set_cell _ Hwf1 fr fc None) as Hwf2.
  pose proof (wf_set_cell _ Hwf2 fr fc (cell (board s) fr fc)) as Hwf3.
  unfold would_be_in_check_after_move, mbind, read_cell, query, mret.
  rewrite !(board_get_cell _ Hwf) by assumption.
  rewrite write_cell_in_bounds by assumption.
  rewrite write_cell_in_bounds by assumption.
  cbn [current_player with_board board]. unfold tentative_board.
  destruct (is_in_check _ _) as [v|e]; [|reflexivity].
  rewrite write_cell_in_bounds by assumption.
  rewrite write_cell_in_bounds by assumption.
  cbn [current_player with_board board move_history].
  rewrite set_cell_restore by assumption.
  destruct s; reflexivity.
Qed.

(** ** Notation parsing *)

Lemma position_to_coords_in_bounds (p : str) (row col : Z) :
  position_to_coords p = Ok (row, col) -> in_bounds row col = true.
Proof.
  unfold position_to_coords, in_bounds.
  destruct p as [|c0 [|c1 [|c2 p]]]; try discriminate.
  destruct (py_ord (py_lower c0)) as [o|e]; [|discriminate].
  cbn [rbind]. destruct (py_int c1) as [d|e]; [|discriminate].
  cbn [rbind].
  destruct ((0 <=? 8 - d) && (8 - d <? 8) && (0 <=? o - 97) && (o - 97 <? 8))
    eqn:E; [|discriminate].
  cbn [negb]. intros [= <- <-]. exact E.
Qed.

Lemma parse_positions_in_bounds (from_pos to_pos : str) (fr fc tr tc : Z) :
  parse_positions from_pos to_pos = Ok (Some ((fr, fc), (tr, tc))) ->
  in_bounds fr fc = true /\ in_bounds tr tc = true.
Proof.
  unfold parse_positions.
  destruct (position_to_coords from_pos) as [[r c]|[]] eqn:Ef;
    try discriminate.
  destruct (position_to_coords to_pos) as [[r' c']|[]] eqn:Et;
    try discriminate.
  intros [= <- <- <- <-].
  split; eapply position_to_coords_in_bounds; eassumption.
Qed.

(** ** The walk of [is_path_clear] *)

Section PathWalk.

Variable b : Board.
Hypothesis Hwf : wf_board b.

(** A walk of [k] in-bounds cells that ends on the target answers, and
    answers [True] exactly when the [k] cells are empty. *)
Lemma is_path_clear_loop_walk (k : nat) :
  forall (fuel : nat) (rd cd cr cc tr tc : Z),
    (k < fuel)%nat ->
    rd <> 0 \/ cd <> 0 ->
    tr = cr + Z.of_nat k * rd ->
    tc = cc + Z.of_nat k * cd ->
    (forall j, 0 <= j < Z.of_nat k ->
               in_bounds (cr + j * rd) (cc + j * cd) = true) ->
    exists v,
      is_path_clear_loop fuel b rd cd cr cc tr tc = Ok v /\
      (v = true <->
       forall j, 0 <= j < Z.of_nat k ->
                 cell b (cr + j * rd) (cc + j * cd) = None).
Proof.
  induction k as [|k IH]; intros fuel rd cd cr cc tr tc Hfuel Hd Htr Htc Hin.
  - destruct fuel as [|fuel]; [lia|]. cbn [is_path_clear_loop].
    replace ((cr =? tr) && (cc =? tc)) with true by lia.
    exists true. split; [reflexivity|]. split; [|reflexivity].
    intros _ j Hj. lia.
  - destruct fuel as [|fuel]; [lia|]. cbn [is_path_clear_loop].
    replace ((cr =? tr) && (cc =? tc)) with false by nia.
    cbn [negb].
    assert (H0 : in_bounds cr cc = true).
    { specialize (Hin 0 ltac:(lia)).
      rewrite !Z.mul_0_l, !Z.add_0_r in Hin. exact Hin. }
    rewrite (board_get_cell _ Hwf) by exact H0. cbn [rbind].
    destruct (cell b cr cc) as [p|] eqn:Ec.
    + exists false. split; [reflexivity|]. split; [discriminate|].
      intros H. specialize (H 0 ltac:(lia)).
      rewrite !Z.mul_0_l, !Z.add_0_r in H. congruence.
    + destruct (IH fuel rd cd (cr + rd) (cc + cd) tr tc) as (v & Hv & Hiff).
      * lia.
      * exact Hd.
      * rewrite Htr. rewrite Nat2Z.inj_succ. ring.
      * rewrite Htc. rewrite Nat2Z.inj_succ. ring.
      * intros j Hj. specialize (Hin (j + 1) ltac:(lia)).
        replace (cr + rd + j * rd) with (cr + (j + 1) * rd) by ring.
        replace (cc + cd + j * cd) with (cc + (j + 1) * cd) by ring.
        exact Hin.
      * exists v. split; [exact Hv|]. rewrite Hiff. split.
        -- intros H j Hj. destruct (decide (j = 0)) as [->|Hne].
           ++ rewrite !Z.mul_0_l, !Z.add_0_r. exact Ec.
           ++ specialize (H (j - 1) ltac:(lia)).
              replace (cr + rd + (j - 1) * rd) with (cr + j * rd) in H
                by ring.
              replace (cc + cd + (j - 1) * cd) with (cc + j * cd) in H
                by ring.
              exact H.
        -- intros H j Hj. specialize (H (j + 1) ltac:(lia)).
           replace (cr + rd + j * rd) with (cr + (j + 1) * rd) by ring.
           replace (cc + cd + j * cd) with (cc + (j + 1) * cd) by ring.
           exact H.
Qed.

(** The cells strictly between two positions are the same in both
    directions. *)
Lemma between_reverse (k : Z) (ar ac rd cd : Z) :
  (forall j, 0 <= j < k ->
             cell b (ar + rd + j * rd) (ac + cd + j * cd) = None) <->
  (forall j, 0 <= j < k ->
             cell b (ar + (k + 1) * rd + - rd + j * - rd)
                    (ac + (k + 1) * cd + - cd + j * - cd) = None).
Proof.
  split; intros H j Hj; specialize (H (k - 1 - j) ltac:(lia)).
  - replace (ar + (k + 1) * rd + - rd + j * - rd)
      with (ar + rd + (k - 1 - j) * rd) by ring.
    replace (ac + (k + 1) * cd + - cd + j * - cd)
      with (ac + cd + (k - 1 - j) * cd) by ring.
    exact H.
  - replace (ar + (k + 1) * rd + - rd + (k - 1 - j) * - rd)
      with (ar + rd + j * rd) in H by ring.
    replace (ac + (k + 1) * cd + - cd + (k - 1 - j) * - cd)
      with (ac + cd + j * cd) in H by ring.
    exact H.
Qed.

(** The bound of the loop is never the reason it stops. *)
Lemma is_path_clear_loop_total (fuel : nat) :
  forall (rd cd cr cc tr tc : Z),
    (rd = 1 \/ rd = -1) \/ (rd = 0 /\ (cd = 1 \/ cd = -1)) ->
    (1 <= fuel)%nat ->
    (-8 <= cr < 8 -> -8 <= cc < 8 ->
     (if decide (rd = 0)
      then if decide (cd = 1) then 8 - cc else cc + 9
      else if decide (rd = 1) then 8 - cr else cr + 9)
     < Z.of_nat fuel) ->
    is_path_clear_loop fuel b rd cd cr cc tr tc <> Raise FuelExhausted.
Proof.
  induction fuel as [|fuel IH]; intros rd cd cr cc tr tc Hd Hf Hm; [lia|].
  cbn [is_path_clear_loop].
  destruct (negb ((cr =? tr) && (cc =? tc))); [|discriminate].
  destruct (decide (-8 <= cr < 8 /\ -8 <= cc < 8)) as [[Hr Hc]|Hout].
  - destruct (board_get_wraps _ Hwf cr cc Hr Hc) as ([p|] & ->);
      cbn [rbind]; [discriminate|].
    specialize (Hm Hr Hc).
    apply IH; [exact Hd | | ].
    + repeat destruct (decide _); lia.
    + intros Hr' Hc'. repeat destruct (decide _); lia.
  - rewrite (board_get_index_error _ Hwf) by exact Hout. discriminate.
Qed.

End PathWalk.

Lemma step_dir_cases (a c : Z) :
  (a = c /\ step_dir a c = 0 /\ step_dir c a = 0)
  \/ (a < c /\ step_dir a c = 1 /\ step_dir c a = -1)
  \/ (c < a /\ step_dir a c = -1 /\ step_dir c a = 1).
Proof.
  unfold step_dir.
  destruct (a =? c) eqn:E1, (c =? a) eqn:E2, (c >? a) eqn:E3,
    (a >? c) eqn:E4; lia.
Qed.

(** [is_path_clear] always answers or raises [IndexError] on an 8x8 board:
    the bounded loop is the [while] loop. *)
Lemma is_path_clear_total (self : ChessBoard) (fr fc tr tc : Z) :
  wf_board (board self) ->
  is_path_clear self fr fc tr tc <> Raise FuelExhausted.
Proof.
  intros Hwf. unfold is_path_clear, path_fuel.
  destruct (step_dir_cases fr tr) as [(Er & -> & _)|[(Er & -> & _)|(Er & -> & _)]];
    destruct (step_dir_cases fc tc) as [(Ec & -> & _)|[(Ec & -> & _)|(Ec & -> & _)]];
    try (apply (is_path_clear_loop_total _ Hwf); [lia | lia |];
         intros Hr Hc; repeat destruct (decide _); lia).
  cbn [is_path_clear_loop].
  replace ((fr + 0 =? tr) && (fc + 0 =? tc)) with true by lia.
  discriminate.
Qed.

(** Both directions of a walk of [k] in-bounds cells between two positions
    give the same answer. *)
Lemma is_path_clear_both_ways (self : ChessBoard) (k : nat)
    (ar ac br bc rd cd : Z) :
  wf_board (board self) ->
  (k < path_fuel)%nat ->
  rd <> 0 \/ cd <> 0 ->
  step_dir ar br = rd -> step_dir br ar = - rd ->
  step_dir ac bc = cd -> step_dir bc ac = - cd ->
  br = ar + (Z.of_nat k + 1) * rd ->
  bc = ac + (Z.of_nat k + 1) * cd ->
  (forall j, 0 <= j < Z.of_nat k ->
             in_bounds (ar + rd + j * rd) (ac + cd + j * cd) = true) ->
  exists v,
    is_path_clear self ar ac br bc = Ok v /\
    is_path_clear self br bc ar ac = Ok v.
Proof.
  intros Hwf Hk Hd Hr1 Hr2 Hc1 Hc2 Hbr Hbc Hin.
  unfold is_path_clear. rewrite Hr1, Hr2, Hc1, Hc2. subst br bc.
  destruct (is_path_clear_loop_walk (board self) Hwf k path_fuel rd cd
              (ar + rd) (ac + cd)
              (ar + (Z.of_nat k + 1) * rd) (ac + (Z.of_nat k + 1) * cd))
    as (v1 & E1 & I1); [exact Hk | exact Hd | ring | ring | exact Hin |].
  destruct (is_path_clear_loop_walk (board self) Hwf k path_fuel
              (- rd) (- cd)
              (ar + (Z.of_nat k + 1) * rd + - rd)
              (ac + (Z.of_nat k + 1) * cd + - cd) ar ac)
    as (v2 & E2 & I2); [exact Hk | lia | ring | ring | |].
  { intros j Hj. specialize (Hin (Z.of_nat k - 1 - j) ltac:(lia)).
    replace (ar + (Z.of_nat k + 1) * rd + - rd + j * - rd)
      with (ar + rd + (Z.of_nat k - 1 - j) * rd) by ring.
    replace (ac + (Z.of_nat k + 1) * cd + - cd + j * - cd)
      with (ac + cd + (Z.of_nat k - 1 - j) * cd) by ring.
    exact Hin. }
  exists v1. split; [exact E1|]. rewrite E2. f_equal.
  pose proof (between_reverse (board self) (Z.of_nat k) ar ac rd cd) as Hrev.
  destruct v1, v2; try reflexivity.
  - apply I2, Hrev, I1. reflexivity.
  - symmetry. apply I1, Hrev, I2. reflexivity.
Qed.

(** On an 8x8 board two in-bounds positions on one row, column or diagonal
    get an answer from [is_path_clear], the same in both directions. *)
Lemma is_path_clear_aligned (self : ChessBoard) (ar ac br bc : Z) :
  wf_board (board self) ->
  in_bounds ar ac = true -> in_bounds br bc = true ->
  aligned ar ac br bc ->
  exists v, is_path_clear self ar ac br bc = Ok v /\
            is_path_clear self br bc ar ac = Ok v.
Proof.
  intros Hwf Ha Hb Hal.
  apply in_bounds_spec in Ha, Hb.
  unfold aligned in Hal.
  set (k := Z.to_nat (Z.max (Z.abs (br - ar)) (Z.abs (bc - ac)) - 1)).
  destruct (step_dir_cases ar br)
    as [(Er & Hr1 & Hr2)|[(Er & Hr1 & Hr2)|(Er & Hr1 & Hr2)]];
    destruct (step_dir_cases ac bc)
      as [(Ec & Hc1 & Hc2)|[(Ec & Hc1 & Hc2)|(Ec & Hc1 & Hc2)]].
  1: { exists true. unfold is_path_clear, path_fuel.
       rewrite Hr1, Hr2, Hc1, Hc2. cbn [is_path_clear_loop].
       replace ((ar + 0 =? br) && (ac + 0 =? bc)) with true by lia.
       replace ((br + 0 =? ar) && (bc + 0 =? ac)) with true by lia.
       split; reflexivity. }
  all: eapply (is_path_clear_both_ways self k);
    try exact Hwf; try exact Hr1; try exact Hr2; try exact Hc1;
    try exact Hc2;
    try (unfold path_fuel; lia); try lia;
    try (intros j Hj; apply in_bounds_spec; lia).
Qed.

(** ** No exception on a well-formed board *)

Lemma get_piece_total (self : ChessBoard) (row col : Z) :
  wf_board (board self) -> exists o, get_piece self row col = Ok o.
Proof.
  intros Hwf. unfold get_piece. destruct (in_bounds row col) eqn:Hb.
  - rewrite (board_get_cell _ Hwf) by exact Hb. eauto.
  - eauto.
Qed.

Lemma is_valid_rook_move_total (self : ChessBoard) (fr fc tr tc : Z) :
  wf_board (board self) ->
  in_bounds fr fc = true -> in_bounds tr tc = true ->
  exists v, is_valid_rook_move self fr fc tr tc = Ok v.
Proof.
  intros Hwf Hf Ht. unfold is_valid_rook_move.
  destruct (negb (fr =? tr) && negb (fc =? tc)) eqn:E; [eauto|].
  destruct (is_path_clear_aligned self fr fc tr tc) as (v & -> & _);
    try assumption; [|eauto].
  unfold aligned. lia.
Qed.

Lemma is_valid_bishop_move_total (self : ChessBoard) (fr fc tr tc : Z) :
  wf_board (board self) ->
  in_bounds fr fc = true -> in_bounds tr tc = true ->
  exists v, is_valid_bishop_move self fr fc tr tc = Ok v.
Proof.
  intros Hwf Hf Ht. unfold is_valid_bishop_move.
  destruct (negb (Z.abs (tr - fr) =? Z.abs (tc - fc))) eqn:E; [eauto|].
  destruct (is_path_clear_aligned self fr fc tr tc) as (v & -> & _);
    try assumption; [|eauto].
  unfold aligned. lia.
Qed.

Lemma is_valid_pawn_move_total (self : ChessBoard) (fr fc tr tc : Z)
    (p : Piece) :
  wf_board (board self) ->
  get_piece self fr fc = Ok (Some p) ->
  exists v, is_valid_pawn_move self fr fc tr tc = Ok v.
Proof.
  intros Hwf Hp. unfold is_valid_pawn_move. rewrite Hp. cbn [rbind].
  set (d := if Color_eqb (color p) WHITE then -1 else 1).
  destruct (get_piece_total self tr tc Hwf) as (dest & ->).
  destruct (get_piece_total self (fr + d) fc Hwf) as (mid & ->).
  cbn [rbind].
  destruct (fc =? tc).
  - destruct (tr =? fr + d); [eauto|].
    destruct ((tr =? fr + 2 * d) && negb (has_moved p)); [|eauto].
    destruct (is_none dest); eauto.
  - destruct ((Z.abs (fc - tc) =? 1) && (tr =? fr + d)); [|eauto].
    destruct dest; eauto.
Qed.

(** [is_valid_move] always answers on an 8x8 board. *)
Lemma is_valid_move_total (self : ChessBoard) (fr fc tr tc : Z) :
  wf_board (board self) ->
  exists v, is_valid_move self fr fc tr tc = Ok v.
Proof.
  intros Hwf. unfold is_valid_move.
  destruct (get_piece self fr fc) as [[p|]|e] eqn:Ep; cbn [rbind].
  2: eauto.
  2: { destruct (get_piece_total self fr fc Hwf) as (o & Eo). congruence. }
  assert (Hf : in_bounds fr fc = true).
  { unfold get_piece in Ep. destruct (in_bounds fr fc);
      [reflexivity | discriminate]. }
  destruct (negb (Color_eqb (color p) (current_player self))); [eauto|].
  unfold is_valid_position.
  destruct (in_bounds tr tc) eqn:Ht; cbn [negb]; [|eauto].
  destruct (get_piece_total self tr tc Hwf) as (dest & ->). cbn [rbind].
  destruct (match dest with
            | Some d => Color_eqb (color d) (color p)
            | None => false
            end); [eauto|].
  destruct (piece_type p).
  - exact (is_valid_pawn_move_total self fr fc tr tc p Hwf Ep).
  - exact (is_valid_rook_move_total self fr fc tr tc Hwf Hf Ht).
  - eauto.
  - exact (is_valid_bishop_move_total self fr fc tr tc Hwf Hf Ht).
  - unfold is_valid_queen_move.
    destruct (is_valid_rook_move_total self fr fc tr tc Hwf Hf Ht)
      as ([|] & ->); cbn [rbind]; [eauto|].
    exact (is_valid_bishop_move_total self fr fc tr tc Hwf Hf Ht).
  - eauto.
Qed.

Lemma for_in_total {A R} (l : list A) (f : A -> Result (option R)) :
  (forall x, x ∈ l -> exists o, f x = Ok o) ->
  exists o, for_in l f = Ok o.
Proof.
  induction l as [|x l IH]; intros H; cbn [for_in]; [eauto|].
  destruct (H x ltac:(left)) as ([v|] & ->); [eauto|].
  apply IH. intros y Hy. apply H. right. exact Hy.
Qed.

(** On an 8x8 board [is_in_check] answers as soon as the King is found. *)
Lemma is_in_check_total (self : ChessBoard) (c : Color) (rc : Z * Z) :
  wf_board (board self) ->
  find_king self c = Ok rc ->
  exists v, is_in_check self c = Ok v.
Proof.
  intros Hwf Hk. unfold is_in_check. rewrite Hk. destruct rc as [kr kc].
  cbn [rbind].
  match goal with
  | |- exists v, rbind ?m _ = _ =>
      assert (Hm : exists o, m = Ok o)
  end.
  { apply for_in_total. intros row Hrow.
    apply for_in_total. intros col Hcol.
    rewrite (board_get_cell _ Hwf) by (apply range8_in_bounds; assumption).
    cbn [rbind].
    destruct (cell (board self) row col) as [p|]; [|eauto].
    destruct (negb (Color_eqb (color p) c)); [|eauto].
    destruct (is_valid_move_total self row col kr kc Hwf) as ([|] & ->);
      cbn [rbind]; eauto. }
  destruct Hm as ([v|] & ->); cbn [rbind]; eauto.
Qed.

(** On an 8x8 board [find_king] raises nothing but [ValueError]. *)
Lemma find_king_error (self : ChessBoard) (c : Color) (e : Exn) :
  wf_board (board self) ->
  find_king self c = Raise e -> e = ValueError.
Proof.
  intros Hwf. unfold find_king.
  match goal with
  | |- rbind ?m _ = _ -> _ => assert (Hm : exists o, m = Ok o)
  end.
  { apply for_in_total. intros row Hrow.
    apply for_in_total. intros col Hcol.
    rewrite (board_get_cell _ Hwf) by (apply range8_in_bounds; assumption).
    cbn [rbind].
    destruct (cell (board self) row col) as [p|]; [|eauto].
    destruct (PieceType_eqb (piece_type p) KING && Color_eqb (color p) c);
      eauto. }
  destruct Hm as ([rc|] & ->); cbn [rbind]; congruence.
Qed.

(** One call on an 8x8 board: [False] and the state as it was when the
    King of the player to move is found after the simulated move; the
    exception of [find_king] and the simulated move left in place when it
    is not. *)
Lemma would_be_in_check_after_move_outcome (fr fc tr tc : Z)
    (s : ChessBoard) :
  wf_board (board s) ->
  in_bounds fr fc = true -> in_bounds tr tc = true ->
  let s2 := with_board s (tentative_board (board s) fr fc tr tc) in
  match find_king s2 (current_player s) with
  | Ok _ => would_be_in_check_after_move fr fc tr tc s = (s, Ok false)
  | Raise _ =>
      would_be_in_check_after_move fr fc tr tc s = (s2, Raise ValueError)
  end.
Proof.
  intros Hwf Hf Ht s2.
  assert (Hwf2 : wf_board (board s2))
    by (unfold s2, tentative_board; cbn [board with_board];
        repeat apply wf_set_cell; exact Hwf).
  rewrite would_be_in_check_after_move_spec by assumption. cbn zeta.
  fold s2.
  destruct (find_king s2 (current_player s)) as [rc|e] eqn:Ek.
  - destruct (is_in_check_total s2 (current_player s) rc Hwf2 Ek)
      as (v & Ev).
    rewrite Ev. destruct v; [|reflexivity].
    exfalso. apply (is_in_check_current_player s2). exact Ev.
  - unfold is_in_check. rewrite Ek. cbn [rbind].
    rewrite (find_king_error s2 _ e Hwf2 Ek). reflexivity.
Qed.

(** * Properties of the specification *)

(** ** Path clearance *)

(** C8 -- Path-clearance symmetry.  On every 8x8 board, for two distinct
    in-bounds positions on one row, one column or one diagonal,
    [is_path_clear] gives the same answer in both directions, and it is an
    answer (no exception). *)
Theorem is_path_clear_symmetric (self : ChessBoard) (ar ac br bc : Z) :
  wf_board (board self) ->
  in_bounds ar ac = true -> in_bounds br bc = true ->
  (ar, ac) <> (br, bc) ->
  aligned ar ac br bc ->
  is_path_clear self ar ac br bc = is_path_clear self br bc ar ac /\
  exists v, is_path_clear self ar ac br bc = Ok v.
Proof.
  intros Hwf Ha Hb _ Hal.
  destruct (is_path_clear_aligned self ar ac br bc Hwf Ha Hb Hal)
    as (v & E1 & E2).
  split; [congruence | eauto].
Qed.

Lemma is_path_clear_symmetric_witness :
  is_path_clear new_ChessBoard 7 0 2 0 = is_path_clear new_ChessBoard 2 0 7 0
  /\ exists v, is_path_clear new_ChessBoard 7 0 2 0 = Ok v.
Proof.
  apply (is_path_clear_symmetric new_ChessBoard 7 0 2 0).
  - exact wf_new_ChessBoard.
  - reflexivity.
  - reflexivity.
  - discriminate.
  - right. left. reflexivity.
Defined.

(** ** The null move *)

(** C10 -- On every 8x8 board and for every position [p], in bounds or not,
    [is_valid_move(p, p)] answers [False]: an empty or out-of-bounds origin
    fails the piece test, and a piece on [p] is its own same-colour
    destination (or fails the turn test before that). *)
Theorem is_valid_move_null_move (self : ChessBoard) (row col : Z) :
  wf_board (board self) ->
  is_valid_move self row col row col = Ok false.
Proof.
  intros Hwf. unfold is_valid_move, get_piece, is_valid_position.
  destruct (in_bounds row col) eqn:Hb; [|reflexivity].
  rewrite (board_get_cell _ Hwf) by exact Hb. cbn [rbind].
  destruct (cell (board self) row col) as [p|]; [|reflexivity].
  destruct (negb (Color_eqb (color p) (current_player self)));
    [reflexivity|].
  cbn [negb rbind]. rewrite Color_eqb_refl. reflexivity.
Qed.

Lemma is_valid_move_null_move_witness :
  is_valid_move new_ChessBoard 7 0 7 0 = Ok false.
Proof.
  apply (is_valid_move_null_move new_ChessBoard 7 0).
  split; [vm_compute; reflexivity | vm_compute; repeat constructor].
Defined.

(** The two reasons of the claim, separately. *)
Lemma is_valid_move_empty_origin (self : ChessBoard) (row col tr tc : Z) :
  get_piece self row col = Ok None ->
  is_valid_move self row col tr tc = Ok false.
Proof. intros H. unfold is_valid_move. rewrite H. reflexivity. Qed.

Lemma is_valid_move_same_color_destination (self : ChessBoard)
    (row col tr tc : Z) (p q : Piece) :
  get_piece self row col = Ok (Some p) ->
  get_piece self tr tc = Ok (Some q) ->
  color q = color p ->
  is_valid_move self row col tr tc = Ok false.
Proof.
  intros Hp Hq Hc. unfold is_valid_move. rewrite Hp. cbn [rbind].
  destruct (negb (Color_eqb (color p) (current_player self)));
    [reflexivity|].
  destruct (negb (is_valid_position tr tc)); [reflexivity|].
  rewrite Hq. cbn [rbind]. rewrite Hc, Color_eqb_refl. reflexivity.
Qed.

(** ** Terminal states *)

Lemma is_checkmate_needs_check (c : Color) (s : ChessBoard) :
  snd (is_checkmate c s) = Ok true -> is_in_check s c = Ok true.
Proof.
  unfold is_checkmate, mbind, query, mret.
  destruct (is_in_check s c) as [[|]|e]; cbn; congruence.
Qed.

Lemma is_stalemate_needs_no_check (c : Color) (s : ChessBoard) :
  snd (is_stalemate c s) = Ok true -> is_in_check s c = Ok false.
Proof.
  unfold is_stalemate, mbind, query, mret.
  destruct (is_in_check s c) as [[|]|e]; cbn; congruence.
Qed.

(** C9 -- Stalemate exclusivity.  In every reachable state and for every
    colour, [is_checkmate] and [is_stalemate] do not both answer [True]. *)
Theorem checkmate_stalemate_exclusive (s : ChessBoard) (c : Color) :
  reachable s ->
  ~ (snd (is_checkmate c s) = Ok true /\ snd (is_stalemate c s) = Ok true).
Proof.
  intros _ [Hm Hs].
  apply is_checkmate_needs_check in Hm.
  apply is_stalemate_needs_no_check in Hs.
  congruence.
Qed.

Lemma checkmate_stalemate_exclusive_witness :
  ~ (snd (is_checkmate WHITE new_ChessBoard) = Ok true /\
     snd (is_stalemate WHITE new_ChessBoard) = Ok true).
Proof.
  apply (checkmate_stalemate_exclusive new_ChessBoard WHITE).
  exact reachable_init.
Defined.

(** ** The simulated move leaves the board as it was *)

(** C4, as the code has it -- On every 8x8 board and for every in-bounds
    pair, any number of calls of [would_be_in_check_after_move] that all
    return leave the board object exactly as it was: both cells hold what
    they held, a captured piece included.  The calls do return when the
    King of the player to move is on the board after the simulated move. *)
Theorem would_be_in_check_after_move_restores (n : nat)
    (fr fc tr tc : Z) (s : ChessBoard) :
  wf_board (board s) ->
  in_bounds fr fc = true -> in_bounds tr tc = true ->
  (forall s' v,
     repeat_would_be_in_check n fr fc tr tc s = (s', Ok v) -> s' = s) /\
  (forall rc,
     find_king (with_board s (tentative_board (board s) fr fc tr tc))
               (current_player s) = Ok rc ->
     exists v, repeat_would_be_in_check n fr fc tr tc s = (s, Ok v)).
Proof.
  intros Hwf Hf Ht. split.
  - induction n as [|n IH]; intros s' v; cbn [repeat_would_be_in_check].
    + rewrite would_be_in_check_after_move_spec by assumption. cbn zeta.
      destruct (is_in_check _ _); congruence.
    + unfold mbind.
      rewrite would_be_in_check_after_move_spec by assumption. cbn zeta.
      destruct (is_in_check _ _); [|congruence]. apply IH.
  - intros rc Hk.
    pose proof (would_be_in_check_after_move_outcome fr fc tr tc s Hwf Hf Ht)
      as Ho.
    cbn zeta in Ho. rewrite Hk in Ho.
    exists false.
    induction n as [|n IH]; cbn [repeat_would_be_in_check].
    + exact Ho.
    + unfold mbind. rewrite Ho. exact IH.
Qed.

Lemma would_be_in_check_after_move_restores_witness :
  (forall s' v,
     repeat_would_be_in_check 2 6 4 4 4 new_ChessBoard = (s', Ok v) ->
     s' = new_ChessBoard) /\
  (forall rc,
     find_king
       (with_board new_ChessBoard
          (tentative_board (board new_ChessBoard) 6 4 4 4))
       (current_player new_ChessBoard) = Ok rc ->
     exists v,
       repeat_would_be_in_check 2 6 4 4 4 new_ChessBoard
       = (new_ChessBoard, Ok v)).
Proof.
  apply (would_be_in_check_after_move_restores 2 6 4 4 4 new_ChessBoard).
  - split; [vm_compute; reflexivity | vm_compute; repeat constructor].
  - reflexivity.
  - reflexivity.
Defined.

(** Three calls for e2-e4 on the initial board: each answers [False] and
    the board object is the initial one. *)
Example would_be_in_check_after_move_three_calls :
  repeat_would_be_in_check 2 6 4 4 4 new_ChessBoard
  = (new_ChessBoard, Ok false).
Proof. vm_compute. reflexivity. Qed.

(** C4, as stated, fails -- On the initial board, the in-bounds pair d1, e1
    puts the Queen on the King's square; check detection then finds no
    King and raises, and the two cells stay as the simulated move left
    them: d1 empty, the Queen on e1. *)
Lemma would_be_in_check_after_move_not_restored :
  wf_board (board new_ChessBoard) /\
  in_bounds 7 3 = true /\ in_bounds 7 4 = true /\
  snd (would_be_in_check_after_move 7 3 7 4 new_ChessBoard)
  = Raise ValueError /\
  cell (board new_ChessBoard) 7 3 = Some (new_Piece WHITE QUEEN) /\
  cell (board new_ChessBoard) 7 4 = Some (new_Piece WHITE KING) /\
  cell (board (fst (would_be_in_check_after_move 7 3 7 4 new_ChessBoard)))
       7 3 = None /\
  cell (board (fst (would_be_in_check_after_move 7 3 7 4 new_ChessBoard)))
       7 4 = Some (new_Piece WHITE QUEEN) /\
  fst (would_be_in_check_after_move 7 3 7 4 new_ChessBoard)
  <> new_ChessBoard.
Proof.
  split; [exact wf_new_ChessBoard|].
  repeat (split; [vm_compute; reflexivity|]).
  vm_compute. discriminate.
Qed.

(** ** Rejected moves *)

(** C5 -- No mutation on rejection.  When [move_piece] answers [False]
    (unparsable position, invalid move, or a refusal by the self-check
    test) the board object is what it was: board, player to move and
    history. *)
Theorem move_piece_rejected_no_mutation (from_pos to_pos : str)
    (s s' : ChessBoard) :
  wf_board (board s) ->
  move_piece from_pos to_pos s = (s', Ok false) ->
  s' = s.
Proof.
  intros Hwf. unfold move_piece, mbind, query, mret.
  destruct (parse_positions from_pos to_pos)
    as [[[[fr fc] [tr tc]]|]|e] eqn:Ep; try congruence.
  destruct (parse_positions_in_bounds _ _ _ _ _ _ Ep) as [Hf Ht].
  destruct (is_valid_move s fr fc tr tc) as [[|]|e]; cbn [negb];
    try congruence.
  rewrite would_be_in_check_after_move_spec by assumption. cbn zeta.
  destruct (is_in_check _ _) as [[|]|e]; try congruence.
  unfold read_cell, query, mraise.
  rewrite !(board_get_cell _ Hwf) by assumption.
  rewrite write_cell_in_bounds by assumption.
  rewrite write_cell_in_bounds
    by (try apply wf_set_cell; cbn [board with_board]; assumption).
  destruct (cell (board s) fr fc) as [p|]; [|congruence].
  destruct (write_cell _ _ _ _) as [s3 [[]|e]]; congruence.
Qed.

Lemma move_piece_rejected_no_mutation_witness :
  fst (move_piece (pystr "e2") (pystr "e5") new_ChessBoard) = new_ChessBoard.
Proof.
  apply (move_piece_rejected_no_mutation (pystr "e2") (pystr "e5")).
  - split; [vm_compute; reflexivity | vm_compute; repeat constructor].
  - vm_compute. reflexivity.
Defined.

(** ** Pawns *)

Lemma get_piece_cell (self : ChessBoard) (row col : Z) :
  wf_board (board self) -> in_bounds row col = true ->
  get_piece self row col = Ok (cell (board self) row col).
Proof.
  intros Hwf Hb. unfold get_piece. rewrite Hb.
  exact (board_get_cell _ Hwf row col Hb).
Qed.

Lemma pawn_direction_eq (c : Color) :
  (if Color_eqb c WHITE then -1 else 1) = pawn_direction c.
Proof. destruct c; reflexivity. Qed.

(** [is_valid_pawn_move] answers, and answers [True] exactly on the three
    moves of the rule. *)
Lemma is_valid_pawn_move_rule (self : ChessBoard) (fr fc tr tc : Z)
    (p : Piece) :
  wf_board (board self) ->
  in_bounds fr fc = true -> in_bounds tr tc = true ->
  cell (board self) fr fc = Some p ->
  (forall q, cell (board self) tr tc = Some q -> color q <> color p) ->
  exists v,
    is_valid_pawn_move self fr fc tr tc = Ok v /\
    (v = true <-> pawn_rule (board self) p fr fc tr tc).
Proof.
  intros Hwf Hf Ht Hp Hq.
  unfold is_valid_pawn_move, pawn_rule.
  rewrite get_piece_cell, Hp by assumption. cbn [rbind].
  rewrite pawn_direction_eq.
  assert (Hd : pawn_direction (color p) = 1 \/ pawn_direction (color p) = -1)
    by (destruct (color p); cbn; lia).
  set (d := pawn_direction (color p)) in *.
  pose proof (proj1 (in_bounds_spec _ _) Hf) as Hf'.
  pose proof (proj1 (in_bounds_spec _ _) Ht) as Ht'.
  destruct (fc =? tc) eqn:E1.
  - destruct (tr =? fr + d) eqn:E2.
    + rewrite get_piece_cell by assumption. cbn [rbind].
      eexists. split; [reflexivity|].
      destruct (cell (board self) tr tc) as [q|] eqn:Eq; cbn [is_none].
      * split; [discriminate|]. intros [H|[H|H]].
        -- destruct H as (_ & _ & H). discriminate.
        -- lia.
        -- lia.
      * split; [|reflexivity]. intros _. left. repeat split; lia.
    + destruct ((tr =? fr + 2 * d) && negb (has_moved p)) eqn:E3.
      * rewrite get_piece_cell by assumption. cbn [rbind].
        assert (Hm : in_bounds (fr + d) fc = true)
          by (apply in_bounds_spec; lia).
        assert (Hnm : has_moved p = false)
          by (destruct (has_moved p); [cbn in E3; lia | reflexivity]).
        destruct (cell (board self) tr tc) as [q|] eqn:Eq; cbn [is_none].
        -- exists false. split; [reflexivity|].
           split; [discriminate|]. intros [H|[H|H]].
           ++ lia.
           ++ destruct H as (_ & _ & _ & H & _). discriminate.
           ++ lia.
        -- rewrite get_piece_cell by assumption. cbn [rbind].
           eexists. split; [reflexivity|].
           destruct (cell (board self) (fr + d) fc) as [m|] eqn:Em;
             cbn [is_none].
           ++ split; [discriminate|]. intros [H|[H|H]].
              ** lia.
              ** destruct H as (_ & _ & _ & _ & H). discriminate.
              ** lia.
           ++ split; [|reflexivity]. intros _. right. left.
              repeat split; try lia; assumption.
      * exists false. split; [reflexivity|].
        split; [discriminate|]. intros [H|[H|H]].
        -- lia.
        -- destruct H as (_ & H1 & H2 & _). rewrite H2 in E3.
           cbn in E3. lia.
        -- lia.
  - destruct ((Z.abs (fc - tc) =? 1) && (tr =? fr + d)) eqn:E2.
    + rewrite get_piece_cell by assumption. cbn [rbind].
      destruct (cell (board self) tr tc) as [q|] eqn:Eq.
      * eexists. split; [reflexivity|].
        specialize (Hq q eq_refl).
        replace (Color_eqb (color q) (color p)) with false
          by (symmetry; apply Color_eqb_neq; exact Hq).
        split; [|reflexivity]. intros _. right. right.
        repeat split; try lia. exists q. split; [reflexivity | exact Hq].
      * exists false. split; [reflexivity|].
        split; [discriminate|]. intros [H|[H|H]].
        -- lia.
        -- lia.
        -- destruct H as (_ & _ & q & H & _). discriminate.
    + exists false. split; [reflexivity|].
      split; [discriminate|]. intros [H|[H|H]]; lia.
Qed.

(** The central dispatch hands a pawn of the colour to move, with a
    destination in bounds that is not of its colour, to the pawn rule. *)
Lemma is_valid_move_pawn (self : ChessBoard) (fr fc tr tc : Z) (p : Piece) :
  wf_board (board self) ->
  in_bounds fr fc = true -> in_bounds tr tc = true ->
  cell (board self) fr fc = Some p ->
  piece_type p = PAWN ->
  color p = current_player self ->
  (forall q, cell (board self) tr tc = Some q -> color q <> color p) ->
  is_valid_move self fr fc tr tc = is_valid_pawn_move self fr fc tr tc.
Proof.
  intros Hwf Hf Ht Hp Hk Hc Hq. unfold is_valid_move, is_valid_position.
  rewrite get_piece_cell, Hp by assumption. cbn [rbind].
  rewrite Hc, Color_eqb_refl, Ht. cbn [negb].
  rewrite get_piece_cell by assumption. cbn [rbind].
  destruct (cell (board self) tr tc) as [q|] eqn:Eq.
  - specialize (Hq q eq_refl). rewrite <- Hc.
    replace (Color_eqb (color q) (color p)) with false
      by (symmetry; apply Color_eqb_neq; exact Hq).
    rewrite Hk. reflexivity.
  - rewrite Hk. reflexivity.
Qed.

(** A pawn whose [has_moved] flag is set is refused the two-square
    advance by [is_valid_move], whatever else holds. *)
Lemma is_valid_move_moved_pawn (self : ChessBoard) (fr fc : Z) (p : Piece) :
  wf_board (board self) ->
  in_bounds fr fc = true ->
  cell (board self) fr fc = Some p ->
  piece_type p = PAWN ->
  has_moved p = true ->
  is_valid_move self fr fc (fr + 2 * pawn_direction (color p)) fc = Ok false.
Proof.
  intros Hwf Hf Hp Hk Hm. unfold is_valid_move, is_valid_position.
  rewrite get_piece_cell, Hp by assumption. cbn [rbind].
  destruct (negb (Color_eqb (color p) (current_player self)));
    [reflexivity|].
  destruct (in_bounds (fr + 2 * pawn_direction (color p)) fc) eqn:Ht;
    [|reflexivity].
  cbn [negb]. rewrite get_piece_cell by assumption. cbn [rbind].
  destruct (match cell (board self) _ fc with
            | Some d => Color_eqb (color d) (color p)
            | None => false
            end); [reflexivity|].
  rewrite Hk. unfold is_valid_pawn_move.
  rewrite get_piece_cell, Hp by assumption. cbn [rbind].
  rewrite pawn_direction_eq, Z.eqb_refl, Hm.
  assert (Hd : pawn_direction (color p) = 1 \/ pawn_direction (color p) = -1)
    by (destruct (color p); cbn; lia).
  replace (fr + 2 * pawn_direction (color p)
           =? fr + pawn_direction (color p)) with false by lia.
  rewrite andb_false_r. reflexivity.
Qed.

(** ** A committed move *)

Lemma parse_positions_some (from_pos to_pos : str) (f t : Z * Z) :
  parse_positions from_pos to_pos = Ok (Some (f, t)) <->
  position_to_coords from_pos = Ok f /\ position_to_coords to_pos = Ok t.
Proof.
  unfold parse_positions.
  destruct (position_to_coords from_pos) as [f'|[]];
    destruct (position_to_coords to_pos) as [t'|[]];
    split; try intros [H1 H2]; try intros H; try discriminate; try congruence.
  injection H as <- <-. split; reflexivity.
Qed.

(** What [move_piece] does when it answers [True]. *)
Lemma move_piece_commit (from_pos to_pos : str) (s s' : ChessBoard) :
  wf_board (board s) ->
  move_piece from_pos to_pos s = (s', Ok true) ->
  exists fr fc tr tc p,
    position_to_coords from_pos = Ok (fr, fc) /\
    position_to_coords to_pos = Ok (tr, tc) /\
    is_valid_move s fr fc tr tc = Ok true /\
    cell (board s) fr fc = Some p /\
    s' = {| board := committed_board (board s) fr fc tr tc p;
            current_player := other_color (current_player s);
            move_history :=
              move_history s ++
              [{| mr_from := from_pos; mr_to := to_pos;
                  mr_piece := mark_moved p;
                  mr_captured := cell (board s) tr tc |}] |}.
Proof.
  intros Hwf. unfold move_piece, mbind, query, mret.
  destruct (parse_positions from_pos to_pos)
    as [[[[fr fc] [tr tc]]|]|e] eqn:Ep; try congruence.
  destruct (parse_positions_in_bounds _ _ _ _ _ _ Ep) as [Hf Ht].
  apply parse_positions_some in Ep. destruct Ep as [Ef Et].
  destruct (is_valid_move s fr fc tr tc) as [[|]|e] eqn:Ev; cbn [negb];
    try congruence.
  rewrite would_be_in_check_after_move_spec by assumption. cbn zeta.
  destruct (is_in_check _ _) as [[|]|e]; try congruence.
  unfold read_cell, query, mraise.
  rewrite !(board_get_cell _ Hwf) by assumption.
  rewrite write_cell_in_bounds by assumption.
  rewrite write_cell_in_bounds
    by (try apply wf_set_cell; cbn [board with_board]; assumption).
  destruct (cell (board s) fr fc) as [p|] eqn:Ec; [|congruence].
  rewrite write_cell_in_bounds
    by (repeat apply wf_set_cell; cbn [board with_board]; assumption).
  cbn [board with_board current_player move_history].
  intros [= <-]. exists fr, fc, tr, tc, p.
  repeat split; assumption.
Qed.

Lemma wf_committed_board (b : Board) (fr fc tr tc : Z) (p : Piece) :
  wf_board b -> wf_board (committed_board b fr fc tr tc p).
Proof. intros Hwf. unfold committed_board. repeat apply wf_set_cell. exact Hwf. Qed.

(** A committed move keeps the board 8x8. *)
Lemma move_piece_wf (from_pos to_pos : str) (s s' : ChessBoard) :
  wf_board (board s) ->
  move_piece from_pos to_pos s = (s', Ok true) ->
  wf_board (board s').
Proof.
  intros Hwf Hm.
  destruct (move_piece_commit _ _ _ _ Hwf Hm)
    as (fr & fc & tr & tc & p & _ & _ & _ & _ & ->).
  apply wf_committed_board. exact Hwf.
Qed.

Lemma reachable_wf (s : ChessBoard) : reachable s -> wf_board (board s).
Proof.
  induction 1 as [|s s' f t _ IH Hm].
  - exact wf_new_ChessBoard.
  - exact (move_piece_wf _ _ _ _ IH Hm).
Qed.

(** [has_moved] is set and never cleared: after a committed move every
    piece on the board is where and as it was, or has its flag set. *)
Lemma move_piece_keeps_has_moved (from_pos to_pos : str) (s s' : ChessBoard)
    (row col : Z) (q : Piece) :
  wf_board (board s) ->
  move_piece from_pos to_pos s = (s', Ok true) ->
  in_bounds row col = true ->
  cell (board s') row col = Some q ->
  cell (board s) row col = Some q \/ has_moved q = true.
Proof.
  intros Hwf Hm Hb Hq.
  destruct (move_piece_commit _ _ _ _ Hwf Hm)
    as (fr & fc & tr & tc & p & Ef & Et & _ & _ & ->).
  pose proof (position_to_coords_in_bounds _ _ _ Ef) as Hf.
  pose proof (position_to_coords_in_bounds _ _ _ Et) as Ht.
  cbn [board] in Hq. unfold committed_board in Hq.
  pose proof (wf_set_cell _ Hwf tr tc (Some p)) as Hwf1.
  pose proof (wf_set_cell _ Hwf1 fr fc None) as Hwf2.
  rewrite (cell_set_cell _ Hwf2), (cell_set_cell _ Hwf1),
    (cell_set_cell _ Hwf) in Hq by assumption.
  repeat destruct (decide _); try discriminate;
    first [ left; exact Hq
          | right; injection Hq as <-; reflexivity ].
Qed.

(** C6 -- The pawn rule.  For a pawn of the colour to move, with the
    destination in bounds and not holding a piece of its colour,
    [is_valid_move] answers [True] exactly on: one square forward (rows
    decrease for White, increase for Black) into an empty cell; two squares
    forward with [has_moved] false and both cells empty; one square
    diagonally forward onto an opposing piece.  Otherwise it answers
    [False].  When [move_piece] commits the pawn's move, the pawn stands on
    the destination with [has_moved] set, and from then on, in every state
    where it still stands there, its two-square advance is refused as an
    invalid move and leaves the state as it was. *)
Theorem pawn_move_legality (self : ChessBoard) (fr fc tr tc : Z)
    (p : Piece) :
  wf_board (board self) ->
  in_bounds fr fc = true -> in_bounds tr tc = true ->
  cell (board self) fr fc = Some p ->
  piece_type p = PAWN ->
  color p = current_player self ->
  (forall q, cell (board self) tr tc = Some q -> color q <> color p) ->
  (is_valid_move self fr fc tr tc = Ok true <->
   pawn_rule (board self) p fr fc tr tc) /\
  (is_valid_move self fr fc tr tc = Ok false <->
   ~ pawn_rule (board self) p fr fc tr tc) /\
  (forall from_pos to_pos self',
     position_to_coords from_pos = Ok (fr, fc) ->
     position_to_coords to_pos = Ok (tr, tc) ->
     move_piece from_pos to_pos self = (self', Ok true) ->
     cell (board self') tr tc = Some (mark_moved p) /\
     forall later pos1 pos2,
       wf_board (board later) ->
       cell (board later) tr tc = Some (mark_moved p) ->
       position_to_coords pos1 = Ok (tr, tc) ->
       position_to_coords pos2
       = Ok (tr + 2 * pawn_direction (color p), tc) ->
       is_valid_move later tr tc (tr + 2 * pawn_direction (color p)) tc
       = Ok false /\
       move_piece pos1 pos2 later = (later, Ok false)).
Proof.
  intros Hwf Hf Ht Hp Hk Hc Hq.
  destruct (is_valid_pawn_move_rule self fr fc tr tc p)
    as (v & Ev & Hv); try assumption.
  rewrite (is_valid_move_pawn self fr fc tr tc p) by assumption.
  rewrite Ev. split; [|split].
  - rewrite <- Hv. split; congruence.
  - rewrite <- Hv. destruct v; split; congruence.
  - intros from_pos to_pos self' Ef Et Hm.
    destruct (move_piece_commit _ _ _ _ Hwf Hm)
      as (fr' & fc' & tr' & tc' & p' & Ef' & Et' & _ & Hp' & ->).
    assert (fr' = fr /\ fc' = fc /\ tr' = tr /\ tc' = tc)
      as (-> & -> & -> & ->) by (repeat split; congruence).
    assert (p' = p) as -> by congruence.
    split.
    + cbn [board]. unfold committed_board.
      rewrite cell_set_cell by (repeat apply wf_set_cell; assumption).
      destruct (decide _) as [_|Hn]; [reflexivity | tauto].
    + intros later pos1 pos2 Hwfl Hcl E1 E2.
      assert (Hv0 : is_valid_move later tr tc
                      (tr + 2 * pawn_direction (color p)) tc = Ok false).
      { apply (is_valid_move_moved_pawn later tr tc (mark_moved p));
          try assumption; reflexivity. }
      split; [exact Hv0|].
      unfold move_piece, mbind, query, mret.
      rewrite (proj2 (parse_positions_some pos1 pos2 _ _) (conj E1 E2)).
      rewrite Hv0. reflexivity.
Qed.

Lemma pawn_move_legality_witness :
  (is_valid_move new_ChessBoard 6 4 5 4 = Ok true <->
   pawn_rule (board new_ChessBoard) (new_Piece WHITE PAWN) 6 4 5 4) /\
  (is_valid_move new_ChessBoard 6 4 5 4 = Ok false <->
   ~ pawn_rule (board new_ChessBoard) (new_Piece WHITE PAWN) 6 4 5 4) /\
  (forall from_pos to_pos self',
     position_to_coords from_pos = Ok (6, 4) ->
     position_to_coords to_pos = Ok (5, 4) ->
     move_piece from_pos to_pos new_ChessBoard = (self', Ok true) ->
     cell (board self') 5 4 = Some (mark_moved (new_Piece WHITE PAWN)) /\
     forall later pos1 pos2,
       wf_board (board later) ->
       cell (board later) 5 4 = Some (mark_moved (new_Piece WHITE PAWN)) ->
       position_to_coords pos1 = Ok (5, 4) ->
       position_to_coords pos2 = Ok (5 + 2 * -1, 4) ->
       is_valid_move later 5 4 (5 + 2 * -1) 4 = Ok false /\
       move_piece pos1 pos2 later = (later, Ok false)).
Proof.
  apply (pawn_move_legality new_ChessBoard 6 4 5 4 (new_Piece WHITE PAWN)).
  - split; [vm_compute; reflexivity | vm_compute; repeat constructor].
  - reflexivity.
  - reflexivity.
  - reflexivity.
  - reflexivity.
  - reflexivity.
  - intros q H. vm_compute in H. discriminate H.
Defined.

(** The scenario of the specification: e2-e3, a reply, then e3-e5. *)
Example pawn_double_step_after_move :
  let '(s, r) :=
    play_moves [mv "e2" "e3"; mv "a7" "a6"; mv "e3" "e5"] new_ChessBoard in
  r = Ok [true; true; false] /\
  cell (board s) 5 4 = Some (mark_moved (new_Piece WHITE PAWN)) /\
  is_valid_move s 5 4 3 4 = Ok false.
Proof. vm_compute. repeat split. Qed.

(** ** Check detection and the player to move *)

(** C1 -- Check detection for the colour to move.  After fool's mate all
    four moves are committed and White is to move; the black Queen on h4
    passes every test of [is_valid_move] for h4-e1 except the turn test, so
    White is in check as the specification words it, and
    [is_in_check(WHITE)] answers [False]. *)
Theorem is_in_check_misses_side_to_move :
  let '(s, r) := play_moves fools_mate new_ChessBoard in
  r = Ok [true; true; true; true] /\
  current_player s = WHITE /\
  find_king s WHITE = Ok (7, 4) /\
  cell (board s) 4 7 = Some (mark_moved (new_Piece BLACK QUEEN)) /\
  cell (board s) 5 6 = None /\ cell (board s) 6 5 = None /\
  is_valid_move (with_player s BLACK) 4 7 7 4 = Ok true /\
  is_valid_move s 4 7 7 4 = Ok false /\
  spec_in_check s WHITE = Ok true /\
  is_in_check s WHITE = Ok false.
Proof. vm_compute. repeat split. Qed.

(** The same state as the game loop sees it: neither check nor checkmate
    is reported to White. *)
Example fools_mate_not_reported :
  let s := fst (play_moves fools_mate new_ChessBoard) in
  snd (is_checkmate WHITE s) = Ok false /\
  snd (is_stalemate WHITE s) = Ok false.
Proof. vm_compute. split; reflexivity. Qed.

(** [is_checkmate] never answers [True] for the colour to move. *)
Lemma is_checkmate_current_player (s : ChessBoard) :
  snd (is_checkmate (current_player s) s) <> Ok true.
Proof.
  intros H. apply is_checkmate_needs_check in H.
  exact (is_in_check_current_player s H).
Qed.

(** ** Moves that expose the mover's King *)

(** C2 -- Self-check.  After e2-e4, e7-e5, d1-h5 Black is to move; f7-f6
    opens the diagonal h5, g6, f7, e8 onto the black King, passes parsing
    and [is_valid_move], and [move_piece] commits it: the black King is
    attacked by the Queen on h5 in the state it leaves. *)
Theorem move_piece_commits_self_check :
  let '(s, r) :=
    play_moves [mv "e2" "e4"; mv "e7" "e5"; mv "d1" "h5"] new_ChessBoard in
  r = Ok [true; true; true] /\
  current_player s = BLACK /\
  position_to_coords (pystr "f7") = Ok (1, 5) /\
  position_to_coords (pystr "f6") = Ok (2, 5) /\
  is_valid_move s 1 5 2 5 = Ok true /\
  spec_in_check
    (with_board s (tentative_board (board s) 1 5 2 5)) BLACK = Ok true /\
  snd (would_be_in_check_after_move 1 5 2 5 s) = Ok false /\
  let '(s', r') := move_piece (pystr "f7") (pystr "f6") s in
  r' = Ok true /\
  find_king s' BLACK = Ok (0, 4) /\
  cell (board s') 3 7 = Some (mark_moved (new_Piece WHITE QUEEN)) /\
  is_valid_move s' 3 7 0 4 = Ok true /\
  spec_in_check s' BLACK = Ok true.
Proof. vm_compute. repeat split. Qed.

(** ** Scholar's mate *)

(** C3 -- Scholar's mate.  The seven moves are all committed, Black is to
    move and its King is attacked by the Queen on f7, and
    [is_checkmate(BLACK)] answers [False], because [is_in_check(BLACK)]
    does. *)
Theorem scholars_mate_not_detected :
  let '(s, r) := play_moves scholars_mate new_ChessBoard in
  r = Ok [true; true; true; true; true; true; true] /\
  current_player s = BLACK /\
  cell (board s) 1 5 = Some (mark_moved (new_Piece WHITE QUEEN)) /\
  find_king s BLACK = Ok (0, 4) /\
  spec_in_check s BLACK = Ok true /\
  is_in_check s BLACK = Ok false /\
  is_checkmate BLACK s = (s, Ok false).
Proof. vm_compute. repeat split. Qed.

(** ** Position strings *)

(** On ASCII strings [position_to_coords] answers for the 128 square names
    and raises [ValueError] for everything else. *)
Lemma position_to_coords_ascii (pos : str) :
  is_ascii pos ->
  (is_square_name pos /\ exists rc, position_to_coords pos = Ok rc)
  \/ (~ is_square_name pos /\ position_to_coords pos = Raise ValueError).
Proof.
  intros Ha. unfold is_square_name.
  destruct pos as [|c0 [|c1 [|c2 pos]]].
  1,2,4: right; split; [intros (? & ? & [=] & _) | reflexivity].
  apply Forall_cons in Ha. destruct Ha as [H0 Ha].
  apply Forall_cons in Ha. destruct Ha as [H1 _].
  unfold position_to_coords, py_lower, py_int.
  destruct ((65 <=? c0)%N && (c0 <=? 90)%N) eqn:Eup.
  - cbn [py_ord rbind].
    destruct ((48 <=? c1)%N && (c1 <=? 57)%N) eqn:Ed; cbn [rbind].
    + match goal with
      | |- context [if negb ?t then _ else _] => destruct t eqn:Eb
      end; cbn [negb].
      * left. split; [|eauto]. exists c0, c1. split; [reflexivity|]. lia.
      * right. split; [|reflexivity].
        intros (x & y & [= <- <-] & Hx & Hy). lia.
    + right. split; [|reflexivity].
      intros (x & y & [= <- <-] & Hx & Hy). lia.
  - destruct ((192 <=? c0)%N && (c0 <=? 222)%N && negb (c0 =? 215)%N)
      eqn:El; [lia|].
    destruct (c0 =? 304)%N eqn:Ei; [lia|].
    cbn [py_ord rbind].
    destruct ((48 <=? c1)%N && (c1 <=? 57)%N) eqn:Ed; cbn [rbind].
    + match goal with
      | |- context [if negb ?t then _ else _] => destruct t eqn:Eb
      end; cbn [negb].
      * left. split; [|eauto]. exists c0, c1. split; [reflexivity|]. lia.
      * right. split; [|reflexivity].
        intros (x & y & [= <- <-] & Hx & Hy). lia.
    + right. split; [|reflexivity].
      intros (x & y & [= <- <-] & Hx & Hy). lia.
Qed.

(** An ASCII string that does not name a square is refused by [move_piece]
    in either place, next to any other ASCII string, and the state is
    untouched. *)
Lemma move_piece_invalid_ascii_notation (pos other : str) (s : ChessBoard) :
  is_ascii pos -> is_ascii other -> ~ is_square_name pos ->
  move_piece pos other s = (s, Ok false) /\
  move_piece other pos s = (s, Ok false).
Proof.
  intros Hp Ho Hn.
  destruct (position_to_coords_ascii pos Hp) as [[Hs _]|[_ Ep]]; [tauto|].
  unfold move_piece, mbind, query, mret, parse_positions. rewrite Ep.
  split; [reflexivity|].
  destruct (position_to_coords_ascii other Ho) as [[_ [rc ->]]|[_ ->]];
    reflexivity.
Qed.

(** The two strings of the specification's scenario. *)
Example move_piece_i9_e0 :
  move_piece (pystr "i9") (pystr "e4") new_ChessBoard
  = (new_ChessBoard, Ok false) /\
  move_piece (pystr "e0") (pystr "e4") new_ChessBoard
  = (new_ChessBoard, Ok false) /\
  move_piece (pystr "e2") (pystr "i9") new_ChessBoard
  = (new_ChessBoard, Ok false) /\
  move_piece (pystr "e2") (pystr "e0") new_ChessBoard
  = (new_ChessBoard, Ok false).
Proof. vm_compute. repeat split. Qed.

(** C7 -- Invalid notation.  The two-character string U+0130, ['1'] is not
    a file letter followed by a rank digit.  Its first character has a
    lower case of two code points, [ord] raises [TypeError] on it, and
    [move_piece], which catches [ValueError] only, lets the exception out
    instead of answering [False]. *)
Theorem move_piece_type_error :
  length [304%N; 49%N] = 2%nat /\
  ~ is_square_name [304%N; 49%N] /\
  py_lower 304 = [105%N; 775%N] /\
  position_to_coords [304%N; 49%N] = Raise TypeError /\
  move_piece [304%N; 49%N] (pystr "e4") new_ChessBoard
  = (new_ChessBoard, Raise TypeError) /\
  move_piece (pystr "e2") [304%N; 49%N] new_ChessBoard
  = (new_ChessBoard, Raise TypeError).
Proof.
  split; [reflexivity|]. split.
  - intros (x & y & [= <- <-] & Hx & Hy). lia.
  - vm_compute. repeat split.
Qed.

(** ** A board without a King *)

(** Since no move is ever refused for self-check, a King can be taken:
    after fool's mate and a white reply, the Queen takes on e1.  White is
    then to move without a King; its next move passes [is_valid_move],
    check detection raises inside the simulation, and [move_piece] lets the
    exception out with the simulated move still on the board. *)
Example move_piece_after_king_capture :
  let '(s, r) :=
    play_moves (fools_mate ++ [mv "a2" "a3"; mv "h4" "e1"]) new_ChessBoard in
  r = Ok [true; true; true; true; true; true] /\
  reachable s /\
  find_king s WHITE = Raise ValueError /\
  is_valid_move s 5 0 4 0 = Ok true /\
  let '(s', r') := move_piece (pystr "a3") (pystr "a4") s in
  r' = Raise ValueError /\
  cell (board s) 5 0 = Some (mark_moved (new_Piece WHITE PAWN)) /\
  cell (board s') 5 0 = None /\
  cell (board s') 4 0 = Some (mark_moved (new_Piece WHITE PAWN)) /\
  current_player s' = WHITE.
Proof.
  assert (Hreach : forall moves s r,
             play_moves moves new_ChessBoard = (s, Ok r) ->
             Forall (fun x => x = true) r -> reachable s).
  { intros moves.
    enough (forall s0, reachable s0 -> forall s r,
              play_moves moves s0 = (s, Ok r) ->
              Forall (fun x => x = true) r -> reachable s) as H
        by (apply H; constructor).
    induction moves as [|[f t] moves IH]; intros s0 H0 s r.
    - cbn. unfold mret. intros [= <- <-] _. exact H0.
    - cbn [play_moves]. unfold mbind, mret.
      destruct (move_piece f t s0) as [s1 [v|e]] eqn:E1; [|discriminate].
      destruct (play_moves moves s1) as [s2 [vs|e]] eqn:E2; [|discriminate].
      intros [= <- <-] Hall. apply Forall_cons in Hall.
      destruct Hall as [-> Hall].
      eapply IH; [|exact E2 | exact Hall].
      econstructor; eassumption. }
  destruct (play_moves _ _) as [s r] eqn:E.
  pose proof E as E'. vm_compute in E'. injection E' as <- <-.
  split; [reflexivity|]. split.
  - eapply Hreach; [exact E | repeat constructor].
  - vm_compute. repeat split.
Qed.

(** * Further properties of the engine *)

(** ** Positions and coordinates *)

(** What [position_to_coords] computes on an ASCII square name. *)
Lemma position_to_coords_square (c0 c1 : N) :
  ((97 <= c0 <= 104)%N \/ (65 <= c0 <= 72)%N) ->
  (49 <= c1 <= 56)%N ->
  position_to_coords [c0; c1]
  = Ok (8 - (Z.of_N c1 - 48),
        Z.of_N (if (c0 <? 97)%N then c0 + 32 else c0)%N - 97).
Proof.
  intros H0 H1. unfold position_to_coords, py_lower, py_int.
  destruct ((65 <=? c0)%N && (c0 <=? 90)%N) eqn:Eup.
  - destruct (c0 <? 97)%N eqn:E; [|lia].
    cbn [py_ord rbind].
    destruct ((48 <=? c1)%N && (c1 <=? 57)%N) eqn:Ed; [|lia].
    cbn [rbind].
    match goal with
    | |- context [if negb ?t then _ else _] => destruct t eqn:Eb
    end; [reflexivity | lia].
  - destruct ((192 <=? c0)%N && (c0 <=? 222)%N && negb (c0 =? 215)%N)
      eqn:El; [lia|].
    destruct (c0 =? 304)%N eqn:Ei; [lia|].
    destruct (c0 <? 97)%N eqn:E; [lia|].
    cbn [py_ord rbind].
    destruct ((48 <=? c1)%N && (c1 <=? 57)%N) eqn:Ed; [|lia].
    cbn [rbind].
    match goal with
    | |- context [if negb ?t then _ else _] => destruct t eqn:Eb
    end; [reflexivity | lia].
Qed.

Lemma py_chr_letter (col : Z) :
  0 <= col < 8 -> py_chr (97 + col) = inr (Z.to_N (97 + col)).
Proof.
  intros H. unfold py_chr.
  assert (E : 2 ^ 31 = 2147483648) by reflexivity. rewrite E.
  repeat match goal with
         | |- context [if ?t then _ else _] => destruct t eqn:?; [lia|]
         end.
  reflexivity.
Qed.

Lemma py_str_int_digit (d : Z) :
  0 <= d <= 9 -> py_str_int d = inr [Z.to_N (48 + d)].
Proof.
  intros H. unfold py_str_int.
  assert (Hlt : Z.abs d < 10 ^ 4300).
  { apply Z.lt_le_trans with (10 ^ 1).
    - rewrite Z.pow_1_r. apply Z.abs_lt. split; [|apply Z.le_lt_trans with 9].
      + apply Z.lt_le_trans with 0; [reflexivity | apply H].
      + apply H.
      + reflexivity.
    - apply Z.pow_le_mono_r; [reflexivity | discriminate]. }
  apply Z.ltb_lt in Hlt. rewrite Hlt. clear Hlt.
  assert (Hd : d ∈ [0; 1; 2; 3; 4; 5; 6; 7; 8; 9]).
  { rewrite !elem_of_cons. lia. }
  rewrite !elem_of_cons, elem_of_nil in Hd.
  repeat (destruct Hd as [->|Hd]; [reflexivity|]). contradiction.
Qed.

(** The position [coords_to_position] gives for an in-bounds cell. *)
Lemma coords_to_position_in_bounds (row col : Z) :
  in_bounds row col = true ->
  coords_to_position row col
  = inr [Z.to_N (97 + col); Z.to_N (48 + (8 - row))].
Proof.
  intros H. apply in_bounds_spec in H. unfold coords_to_position.
  rewrite py_chr_letter by lia. rewrite py_str_int_digit by lia.
  reflexivity.
Qed.

(** X1 -- Formatting then parsing gives the coordinates back: for in-bounds
    coordinates [coords_to_position] answers with a square name that
    [position_to_coords] maps to the same row and column. *)
Theorem position_of_coords_round_trip (row col : Z) :
  in_bounds row col = true ->
  exists p,
    coords_to_position row col = inr p /\
    is_ascii p /\ is_square_name p /\
    position_to_coords p = Ok (row, col).
Proof.
  intros H. rewrite (coords_to_position_in_bounds _ _ H).
  apply in_bounds_spec in H.
  eexists. split; [reflexivity|].
  set (c0 := Z.to_N (97 + col)). set (c1 := Z.to_N (48 + (8 - row))).
  assert (H0 : (97 <= c0 <= 104)%N) by lia.
  assert (H1 : (49 <= c1 <= 56)%N) by lia.
  split; [|split].
  - repeat constructor; lia.
  - exists c0, c1. split; [reflexivity|]. lia.
  - rewrite position_to_coords_square by lia.
    destruct (c0 <? 97)%N eqn:E; [lia|]. f_equal. f_equal; lia.
Qed.

Lemma position_of_coords_round_trip_witness :
  exists p,
    coords_to_position 4 4 = inr p /\
    is_ascii p /\ is_square_name p /\
    position_to_coords p = Ok (4, 4).
Proof.
  apply (position_of_coords_round_trip 4 4). reflexivity.
Defined.

(** X2 -- Parsing then formatting gives the position back in lower case: the
    file letter of an ASCII position may be a capital, the formatted one
    never is. *)
Theorem coords_of_position_round_trip (p : str) (row col : Z) :
  is_ascii p ->
  position_to_coords p = Ok (row, col) ->
  coords_to_position row col = inr (str_lower p).
Proof.
  intros Ha Hp.
  destruct (position_to_coords_ascii p Ha) as [[Hs _]|[_ E]];
    [|congruence].
  destruct Hs as (c0 & c1 & -> & H0 & H1).
  rewrite (position_to_coords_square c0 c1 H0 H1) in Hp.
  injection Hp as <- <-.
  unfold str_lower. cbn [flat_map app]. unfold py_lower.
  destruct ((65 <=? c1)%N && (c1 <=? 90)%N) eqn:E1; [lia|].
  destruct ((192 <=? c1)%N && (c1 <=? 222)%N && negb (c1 =? 215)%N) eqn:E2;
    [lia|].
  destruct (c1 =? 304)%N eqn:E3; [lia|].
  destruct (c0 <? 97)%N eqn:E5.
  - rewrite coords_to_position_in_bounds by (apply in_bounds_spec; lia).
    destruct ((65 <=? c0)%N && (c0 <=? 90)%N) eqn:E4; [|lia].
    cbn [app]. f_equal. f_equal; [lia|]. f_equal. lia.
  - rewrite coords_to_position_in_bounds by (apply in_bounds_spec; lia).
    destruct ((65 <=? c0)%N && (c0 <=? 90)%N) eqn:E4; [lia|].
    destruct ((192 <=? c0)%N && (c0 <=? 222)%N && negb (c0 =? 215)%N)
      eqn:E6; [lia|].
    destruct (c0 =? 304)%N eqn:E7; [lia|].
    cbn [app]. f_equal. f_equal; [lia|]. f_equal. lia.
Qed.

Lemma coords_of_position_round_trip_witness :
  coords_to_position 4 4 = inr (str_lower (pystr "E4")).
Proof.
  apply (coords_of_position_round_trip (pystr "E4") 4 4).
  - repeat constructor.
  - reflexivity.
Defined.

(** Outside the board [coords_to_position] does not refuse: it formats
    whatever it is given, and raises only what [chr] and [str] raise. *)
Example coords_to_position_out_of_bounds :
  coords_to_position 8 8 = inr (pystr "i0") /\
  coords_to_position (-1) 0 = inr (pystr "a9") /\
  coords_to_position 20 0 = inr (pystr "a-12") /\
  coords_to_position 0 (-98) = inl FormatValueError /\
  coords_to_position 0 (2 ^ 31) = inl FormatOverflowError.
Proof. vm_compute. repeat split. Qed.

(** ** What [is_path_clear] decides *)

Lemma step_dir_sgn (a c : Z) : step_dir a c = Z.sgn (c - a).
Proof.
  destruct (step_dir_cases a c) as [(E & -> & _)|[(E & -> & _)|(E & -> & _)]].
  - subst. rewrite Z.sub_diag. reflexivity.
  - symmetry. apply Z.sgn_pos. lia.
  - symmetry. apply Z.sgn_neg. lia.
Qed.

(** A walk from just after the origin to the target: the answer is [True]
    exactly when the cells strictly between are empty. *)
Lemma is_path_clear_walk (self : ChessBoard) (k : nat)
    (ar ac br bc rd cd : Z) :
  wf_board (board self) ->
  (k < path_fuel)%nat ->
  rd <> 0 \/ cd <> 0 ->
  step_dir ar br = rd -> step_dir ac bc = cd ->
  br = ar + (Z.of_nat k + 1) * rd ->
  bc = ac + (Z.of_nat k + 1) * cd ->
  (forall j, 0 < j < Z.of_nat k + 1 ->
             in_bounds (ar + j * rd) (ac + j * cd) = true) ->
  exists v,
    is_path_clear self ar ac br bc = Ok v /\
    (v = true <->
     forall j, 0 < j < Z.of_nat k + 1 ->
               cell (board self) (ar + j * rd) (ac + j * cd) = None).
Proof.
  intros Hwf Hk Hd Hr Hc Hbr Hbc Hin.
  unfold is_path_clear. rewrite Hr, Hc.
  destruct (is_path_clear_loop_walk (board self) Hwf k path_fuel rd cd
              (ar + rd) (ac + cd) br bc)
    as (v & Ev & Iv); [exact Hk | exact Hd | | | |].
  - rewrite Hbr. ring.
  - rewrite Hbc. ring.
  - intros j Hj. specialize (Hin (j + 1) ltac:(lia)).
    replace (ar + rd + j * rd) with (ar + (j + 1) * rd) by ring.
    replace (ac + cd + j * cd) with (ac + (j + 1) * cd) by ring.
    exact Hin.
  - exists v. split; [exact Ev|]. rewrite Iv. split.
    + intros H j Hj. specialize (H (j - 1) ltac:(lia)).
      replace (ar + rd + (j - 1) * rd) with (ar + j * rd) in H by ring.
      replace (ac + cd + (j - 1) * cd) with (ac + j * cd) in H by ring.
      exact H.
    + intros H j Hj. specialize (H (j + 1) ltac:(lia)).
      replace (ar + rd + j * rd) with (ar + (j + 1) * rd) by ring.
      replace (ac + cd + j * cd) with (ac + (j + 1) * cd) by ring.
      exact H.
Qed.

Lemma is_path_clear_between_answer (self : ChessBoard) (ar ac br bc : Z) :
  wf_board (board self) ->
  in_bounds ar ac = true -> in_bounds br bc = true ->
  aligned ar ac br bc ->
  exists v,
    is_path_clear self ar ac br bc = Ok v /\
    (v = true <-> between_empty (board self) ar ac br bc).
Proof.
  intros Hwf Ha Hb Hal.
  apply in_bounds_spec in Ha, Hb. unfold aligned in Hal.
  unfold between_empty. rewrite <- !step_dir_sgn.
  set (k := Z.to_nat (Z.max (Z.abs (br - ar)) (Z.abs (bc - ac)) - 1)).
  destruct (step_dir_cases ar br)
    as [(Er & Hr1 & _)|[(Er & Hr1 & _)|(Er & Hr1 & _)]];
    destruct (step_dir_cases ac bc)
      as [(Ec & Hc1 & _)|[(Ec & Hc1 & _)|(Ec & Hc1 & _)]].
  1: { exists true. unfold is_path_clear, path_fuel.
       rewrite Hr1, Hc1. cbn [is_path_clear_loop].
       replace ((ar + 0 =? br) && (ac + 0 =? bc)) with true by lia.
       split; [reflexivity|]. split; [|reflexivity].
       intros _ j Hj. lia. }
  all: rewrite Hr1, Hc1;
    replace (Z.max (Z.abs (br - ar)) (Z.abs (bc - ac)))
      with (Z.of_nat k + 1) by lia;
    eapply (is_path_clear_walk self k);
    try exact Hwf; try exact Hr1; try exact Hc1;
    try (unfold path_fuel; lia); try lia;
    try (intros j Hj; apply in_bounds_spec; lia).
Qed.

(** X3 -- Path clearance.  On an 8x8 board, for two in-bounds positions on one
    row, column or diagonal, [is_path_clear] answers [True] exactly when
    every cell strictly between them is empty, and [False] otherwise; the
    two end cells are not looked at. *)
Theorem is_path_clear_between (self : ChessBoard) (ar ac br bc : Z) :
  wf_board (board self) ->
  in_bounds ar ac = true -> in_bounds br bc = true ->
  aligned ar ac br bc ->
  (is_path_clear self ar ac br bc = Ok true <->
   between_empty (board self) ar ac br bc) /\
  (is_path_clear self ar ac br bc = Ok false <->
   ~ between_empty (board self) ar ac br bc).
Proof.
  intros Hwf Ha Hb Hal.
  destruct (is_path_clear_between_answer self ar ac br bc Hwf Ha Hb Hal)
    as (v & -> & Hv).
  rewrite <- Hv. destruct v; split; split; congruence.
Qed.

Lemma is_path_clear_between_witness :
  (is_path_clear new_ChessBoard 7 0 2 0 = Ok true <->
   between_empty (board new_ChessBoard) 7 0 2 0) /\
  (is_path_clear new_ChessBoard 7 0 2 0 = Ok false <->
   ~ between_empty (board new_ChessBoard) 7 0 2 0).
Proof.
  apply (is_path_clear_between new_ChessBoard 7 0 2 0).
  - split; [vm_compute; reflexivity | vm_compute; repeat constructor].
  - reflexivity.
  - reflexivity.
  - right. left. reflexivity.
Defined.

(** A walk that never meets its target never answers [True]: it stops on
    the first piece or leaves the board. *)
Lemma is_path_clear_loop_never_reaches (fuel : nat) (b : Board) :
  forall rd cd cr cc tr tc : Z,
    (forall i, 0 <= i -> ~ (cr + i * rd = tr /\ cc + i * cd = tc)) ->
    is_path_clear_loop fuel b rd cd cr cc tr tc <> Ok true.
Proof.
  induction fuel as [|fuel IH]; intros rd cd cr cc tr tc Hn; [discriminate|].
  cbn [is_path_clear_loop].
  replace ((cr =? tr) && (cc =? tc)) with false
    by (specialize (Hn 0 ltac:(lia)); lia).
  cbn [negb].
  destruct (board_get b cr cc) as [[p|]|e]; cbn [rbind]; try discriminate.
  apply IH. intros i Hi [H1 H2]. apply (Hn (i + 1) ltac:(lia)).
  split; [rewrite <- H1 | rewrite <- H2]; ring.
Qed.

Lemma is_path_clear_loop_outcomes (fuel : nat) (b : Board) :
  wf_board b ->
  forall (rd cd cr cc tr tc : Z) (e : Exn),
    is_path_clear_loop fuel b rd cd cr cc tr tc = Raise e ->
    e = IndexError \/ e = FuelExhausted.
Proof.
  intros Hwf.
  induction fuel as [|fuel IH]; intros rd cd cr cc tr tc e.
  - cbn. intros [= <-]. right. reflexivity.
  - cbn [is_path_clear_loop].
    destruct (negb ((cr =? tr) && (cc =? tc))); [|discriminate].
    destruct (decide (-8 <= cr < 8 /\ -8 <= cc < 8)) as [[Hr Hc]|Hout].
    + destruct (board_get_wraps _ Hwf cr cc Hr Hc) as ([p|] & ->);
        cbn [rbind]; [discriminate|]. apply IH.
    + rewrite (board_get_index_error _ Hwf) by exact Hout.
      cbn [rbind]. intros [= <-]. left. reflexivity.
Qed.

(** X4 -- Two positions that are not on one row, column or diagonal: on any
    board [is_path_clear] does not answer [True], and on an 8x8 board it
    answers [False], having met a piece, or raises [IndexError], having
    walked off the board. *)
Theorem is_path_clear_not_aligned (self : ChessBoard) (ar ac br bc : Z) :
  ~ aligned ar ac br bc ->
  is_path_clear self ar ac br bc <> Ok true /\
  (wf_board (board self) ->
   is_path_clear self ar ac br bc = Ok false \/
   is_path_clear self ar ac br bc = Raise IndexError).
Proof.
  intros Hna.
  assert (Hnt : is_path_clear self ar ac br bc <> Ok true).
  { unfold is_path_clear. unfold aligned in Hna.
    apply is_path_clear_loop_never_reaches. intros i Hi [H1 H2].
    destruct (step_dir_cases ar br)
      as [(Er & Hr1 & _)|[(Er & Hr1 & _)|(Er & Hr1 & _)]];
      destruct (step_dir_cases ac bc)
        as [(Ec & Hc1 & _)|[(Ec & Hc1 & _)|(Ec & Hc1 & _)]];
      rewrite Hr1, Hc1 in *; lia. }
  split; [exact Hnt|]. intros Hwf.
  destruct (is_path_clear self ar ac br bc) as [[|]|e] eqn:E.
  - congruence.
  - left. reflexivity.
  - right. f_equal.
    destruct (is_path_clear_loop_outcomes _ _ Hwf _ _ _ _ _ _ _ E)
      as [->| ->]; [reflexivity|].
    exfalso. exact (is_path_clear_total self ar ac br bc Hwf E).
Qed.

Lemma is_path_clear_not_aligned_witness :
  is_path_clear new_ChessBoard 5 0 3 1 <> Ok true /\
  (wf_board (board new_ChessBoard) ->
   is_path_clear new_ChessBoard 5 0 3 1 = Ok false \/
   is_path_clear new_ChessBoard 5 0 3 1 = Raise IndexError).
Proof.
  apply (is_path_clear_not_aligned new_ChessBoard 5 0 3 1).
  unfold aligned. lia.
Defined.

(** Both outcomes occur: on the initial board the walk from a3 towards b5
    meets the pawn on e7; on an empty board the walk from a6 towards b4
    meets nothing and leaves the board. *)
Example is_path_clear_not_aligned_outcomes :
  is_path_clear new_ChessBoard 5 0 3 1 = Ok false /\
  is_path_clear
    (with_board new_ChessBoard (replicate 8 (replicate 8 None))) 2 0 4 1
  = Raise IndexError.
Proof. vm_compute. split; reflexivity. Qed.

(** ** What [is_valid_move] accepts *)

Lemma is_valid_move_central (self : ChessBoard) (fr fc tr tc : Z) :
  wf_board (board self) ->
  is_valid_move self fr fc tr tc = Ok true ->
  in_bounds fr fc = true /\ in_bounds tr tc = true /\
  (fr, fc) <> (tr, tc) /\
  exists p,
    cell (board self) fr fc = Some p /\
    color p = current_player self /\
    forall q, cell (board self) tr tc = Some q -> color q <> color p.
Proof.
  intros Hwf. unfold is_valid_move, get_piece, is_valid_position.
  destruct (in_bounds fr fc) eqn:Hf; [|discriminate].
  rewrite (board_get_cell _ Hwf) by exact Hf. cbn [rbind].
  destruct (cell (board self) fr fc) as [p|] eqn:Ep; [|discriminate].
  destruct (Color_eqb (color p) (current_player self)) eqn:Ec;
    [|discriminate].
  cbn [negb].
  destruct (in_bounds tr tc) eqn:Ht; [|discriminate].
  cbn [negb]. rewrite (board_get_cell _ Hwf) by exact Ht. cbn [rbind].
  destruct (cell (board self) tr tc) as [q|] eqn:Eq.
  - destruct (Color_eqb (color q) (color p)) eqn:Eqp; [discriminate|].
    intros _. repeat split.
    + intros [= <- <-]. rewrite Ep in Eq. injection Eq as <-.
      rewrite Color_eqb_refl in Eqp. discriminate.
    + exists p. repeat split.
      * apply Color_eqb_eq. exact Ec.
      * intros q' [= <-]. apply Color_eqb_neq. exact Eqp.
  - intros _. repeat split.
    + intros [= <- <-]. congruence.
    + exists p. repeat split.
      * apply Color_eqb_eq. exact Ec.
      * intros q' [=].
Qed.

(** X5 -- On an 8x8 board [is_valid_move] answers [True] only for a move of a
    piece of the colour to move, from an in-bounds cell to a different
    in-bounds cell that does not hold a piece of the same colour. *)
Theorem is_valid_move_preconditions (self : ChessBoard) (fr fc tr tc : Z) :
  wf_board (board self) ->
  is_valid_move self fr fc tr tc = Ok true ->
  in_bounds fr fc = true /\ in_bounds tr tc = true /\
  (fr, fc) <> (tr, tc) /\
  exists p,
    cell (board self) fr fc = Some p /\
    color p = current_player self /\
    forall q, cell (board self) tr tc = Some q -> color q <> color p.
Proof. exact (is_valid_move_central self fr fc tr tc). Qed.

Lemma is_valid_move_preconditions_witness :
  in_bounds 6 4 = true /\ in_bounds 4 4 = true /\
  (6, 4) <> (4, 4) /\
  exists p,
    cell (board new_ChessBoard) 6 4 = Some p /\
    color p = current_player new_ChessBoard /\
    forall q, cell (board new_ChessBoard) 4 4 = Some q -> color q <> color p.
Proof.
  apply (is_valid_move_preconditions new_ChessBoard 6 4 4 4).
  - split; [vm_compute; reflexivity | vm_compute; repeat constructor].
  - vm_compute. reflexivity.
Defined.

(** X6 -- [is_valid_move] raises nothing on an 8x8 board, whatever four
    integers it is given, and answers [False] as soon as the origin or the
    destination is out of bounds. *)
Theorem is_valid_move_never_raises (self : ChessBoard) (fr fc tr tc : Z) :
  wf_board (board self) ->
  (exists v, is_valid_move self fr fc tr tc = Ok v) /\
  (in_bounds fr fc = false \/ in_bounds tr tc = false ->
   is_valid_move self fr fc tr tc = Ok false).
Proof.
  intros Hwf.
  destruct (is_valid_move_total self fr fc tr tc Hwf) as (v & Ev).
  split; [eauto|]. intros Hout. rewrite Ev. destruct v; [|reflexivity].
  destruct (is_valid_move_central self fr fc tr tc Hwf Ev) as (Hf & Ht & _).
  destruct Hout; congruence.
Qed.

Lemma is_valid_move_never_raises_witness :
  (exists v, is_valid_move new_ChessBoard 7 0 (-1) 0 = Ok v) /\
  (in_bounds 7 0 = false \/ in_bounds (-1) 0 = false ->
   is_valid_move new_ChessBoard 7 0 (-1) 0 = Ok false).
Proof.
  apply (is_valid_move_never_raises new_ChessBoard 7 0 (-1) 0).
  split; [vm_compute; reflexivity | vm_compute; repeat constructor].
Defined.

(** Past the central tests the answer is the one the piece's rule gives. *)
Lemma is_valid_move_dispatch (self : ChessBoard) (fr fc tr tc : Z)
    (p : Piece) :
  wf_board (board self) ->
  in_bounds fr fc = true -> in_bounds tr tc = true ->
  cell (board self) fr fc = Some p ->
  color p = current_player self ->
  (forall q, cell (board self) tr tc = Some q -> color q <> color p) ->
  is_valid_move self fr fc tr tc =
  match piece_type p with
  | PAWN => is_valid_pawn_move self fr fc tr tc
  | ROOK => is_valid_rook_move self fr fc tr tc
  | KNIGHT => Ok (is_valid_knight_move fr fc tr tc)
  | BISHOP => is_valid_bishop_move self fr fc tr tc
  | QUEEN => is_valid_queen_move self fr fc tr tc
  | KING => Ok (is_valid_king_move fr fc tr tc)
  end.
Proof.
  intros Hwf Hf Ht Hp Hc Hq. unfold is_valid_move, is_valid_position.
  rewrite get_piece_cell, Hp by assumption. cbn [rbind].
  rewrite Hc, Color_eqb_refl, Ht. cbn [negb].
  rewrite get_piece_cell by assumption. cbn [rbind].
  destruct (cell (board self) tr tc) as [q|] eqn:Eq; [|reflexivity].
  specialize (Hq q eq_refl). rewrite <- Hc.
  replace (Color_eqb (color q) (color p)) with false
    by (symmetry; apply Color_eqb_neq; exact Hq).
  reflexivity.
Qed.

Lemma is_valid_rook_move_rule (self : ChessBoard) (fr fc tr tc : Z) :
  wf_board (board self) ->
  in_bounds fr fc = true -> in_bounds tr tc = true ->
  exists v,
    is_valid_rook_move self fr fc tr tc = Ok v /\
    (v = true <->
     (fr = tr \/ fc = tc) /\ between_empty (board self) fr fc tr tc).
Proof.
  intros Hwf Hf Ht. unfold is_valid_rook_move.
  destruct (negb (fr =? tr) && negb (fc =? tc)) eqn:E.
  - exists false. split; [reflexivity|]. split; [discriminate|].
    intros [H _]. lia.
  - destruct (is_path_clear_between_answer self fr fc tr tc)
      as (v & Ev & Hv); try assumption.
    { unfold aligned. lia. }
    exists v. split; [exact Ev|]. rewrite Hv. split; [|tauto].
    intros H. split; [lia | exact H].
Qed.

Lemma is_valid_bishop_move_rule (self : ChessBoard) (fr fc tr tc : Z) :
  wf_board (board self) ->
  in_bounds fr fc = true -> in_bounds tr tc = true ->
  exists v,
    is_valid_bishop_move self fr fc tr tc = Ok v /\
    (v = true <->
     Z.abs (tr - fr) = Z.abs (tc - fc) /\
     between_empty (board self) fr fc tr tc).
Proof.
  intros Hwf Hf Ht. unfold is_valid_bishop_move.
  destruct (negb (Z.abs (tr - fr) =? Z.abs (tc - fc))) eqn:E.
  - exists false. split; [reflexivity|]. split; [discriminate|].
    intros [H _]. lia.
  - destruct (is_path_clear_between_answer self fr fc tr tc)
      as (v & Ev & Hv); try assumption.
    { unfold aligned. lia. }
    exists v. split; [exact Ev|]. rewrite Hv. split; [|tauto].
    intros H. split; [lia | exact H].
Qed.

Lemma answer_iff (r : Result bool) (P : Prop) :
  (exists v, r = Ok v /\ (v = true <-> P)) ->
  (r = Ok true <-> P) /\ (r = Ok false <-> ~ P).
Proof.
  intros (v & -> & Hv). rewrite <- Hv.
  destruct v; split; split; congruence.
Qed.

Section PieceRules.

Variable self : ChessBoard.
Variables fr fc tr tc : Z.
Variable p : Piece.
Hypothesis Hwf : wf_board (board self).
Hypothesis Hfrom : in_bounds fr fc = true.
Hypothesis Hto : in_bounds tr tc = true.
Hypothesis Hpiece : cell (board self) fr fc = Some p.
Hypothesis Hturn : color p = current_player self.
Hypothesis Hdest :
  forall q, cell (board self) tr tc = Some q -> color q <> color p.

(** X7 -- The rook rule.  For a rook of the colour to move, with the destination
    in bounds and not holding a piece of its colour, [is_valid_move]
    answers [True] exactly when origin and destination share a row or a
    column and the cells between them are empty, and [False] otherwise. *)
Theorem rook_move_legality :
  piece_type p = ROOK ->
  (is_valid_move self fr fc tr tc = Ok true <->
   (fr = tr \/ fc = tc) /\ between_empty (board self) fr fc tr tc) /\
  (is_valid_move self fr fc tr tc = Ok false <->
   ~ ((fr = tr \/ fc = tc) /\ between_empty (board self) fr fc tr tc)).
Proof.
  intros Hk. apply answer_iff.
  rewrite (is_valid_move_dispatch self fr fc tr tc p) by assumption.
  rewrite Hk. apply is_valid_rook_move_rule; assumption.
Qed.

(** X8 -- The bishop rule: [True] exactly when the row and column displacements
    have the same absolute value and the cells between are empty. *)
Theorem bishop_move_legality :
  piece_type p = BISHOP ->
  (is_valid_move self fr fc tr tc = Ok true <->
   Z.abs (tr - fr) = Z.abs (tc - fc) /\
   between_empty (board self) fr fc tr tc) /\
  (is_valid_move self fr fc tr tc = Ok false <->
   ~ (Z.abs (tr - fr) = Z.abs (tc - fc) /\
      between_empty (board self) fr fc tr tc)).
Proof.
  intros Hk. apply answer_iff.
  rewrite (is_valid_move_dispatch self fr fc tr tc p) by assumption.
  rewrite Hk. apply is_valid_bishop_move_rule; assumption.
Qed.

(** X9 -- The queen rule: [True] exactly when origin and destination are on one
    row, column or diagonal and the cells between are empty. *)
Theorem queen_move_legality :
  piece_type p = QUEEN ->
  (is_valid_move self fr fc tr tc = Ok true <->
   aligned fr fc tr tc /\ between_empty (board self) fr fc tr tc) /\
  (is_valid_move self fr fc tr tc = Ok false <->
   ~ (aligned fr fc tr tc /\ between_empty (board self) fr fc tr tc)).
Proof.
  intros Hk. apply answer_iff.
  rewrite (is_valid_move_dispatch self fr fc tr tc p) by assumption.
  rewrite Hk. unfold is_valid_queen_move.
  destruct (is_valid_rook_move_rule self fr fc tr tc Hwf Hfrom Hto)
    as (v1 & -> & H1).
  destruct (is_valid_bishop_move_rule self fr fc tr tc Hwf Hfrom Hto)
    as (v2 & E2 & H2).
  cbn [rbind]. unfold aligned. destruct v1.
  - exists true. split; [reflexivity|]. split; [|reflexivity].
    intros _. destruct (proj1 H1 eq_refl) as [Ha Hb]. split; [lia | exact Hb].
  - exists v2. split; [exact E2|]. rewrite H2. split.
    + intros [Ha Hb]. split; [lia | exact Hb].
    + intros [Ha Hb]. split; [|exact Hb].
      destruct (decide (fr = tr \/ fc = tc)) as [Hs|Hs]; [|lia].
      exfalso. assert (false = true); [|discriminate].
      apply H1. split; assumption.
Qed.

(** X10 -- The knight rule: [True] exactly for a displacement of two rows and one
    column or one row and two columns, whatever stands in between. *)
Theorem knight_move_legality :
  piece_type p = KNIGHT ->
  (is_valid_move self fr fc tr tc = Ok true <->
   (Z.abs (tr - fr) = 2 /\ Z.abs (tc - fc) = 1) \/
   (Z.abs (tr - fr) = 1 /\ Z.abs (tc - fc) = 2)) /\
  (is_valid_move self fr fc tr tc = Ok false <->
   ~ ((Z.abs (tr - fr) = 2 /\ Z.abs (tc - fc) = 1) \/
      (Z.abs (tr - fr) = 1 /\ Z.abs (tc - fc) = 2))).
Proof.
  intros Hk. apply answer_iff.
  rewrite (is_valid_move_dispatch self fr fc tr tc p) by assumption.
  rewrite Hk. eexists. split; [reflexivity|].
  unfold is_valid_knight_move. lia.
Qed.

(** X11 -- The king rule: [True] exactly for a displacement of at most one row
    and at most one column. *)
Theorem king_move_legality :
  piece_type p = KING ->
  (is_valid_move self fr fc tr tc = Ok true <->
   Z.abs (tr - fr) <= 1 /\ Z.abs (tc - fc) <= 1) /\
  (is_valid_move self fr fc tr tc = Ok false <->
   ~ (Z.abs (tr - fr) <= 1 /\ Z.abs (tc - fc) <= 1)).
Proof.
  intros Hk. apply answer_iff.
  rewrite (is_valid_move_dispatch self fr fc tr tc p) by assumption.
  rewrite Hk. eexists. split; [reflexivity|].
  unfold is_valid_king_move.
  assert (Hne : fr <> tr \/ fc <> tc).
  { destruct (decide (fr = tr)) as [->|]; [|left; assumption].
    destruct (decide (fc = tc)) as [->|]; [|right; assumption].
    exfalso. exact (Hdest p Hpiece eq_refl). }
  lia.
Qed.

End PieceRules.

Lemma rook_move_legality_witness :
  (is_valid_move new_ChessBoard 7 0 5 0 = Ok true <->
   (7 = 5 \/ 0 = 0) /\ between_empty (board new_ChessBoard) 7 0 5 0) /\
  (is_valid_move new_ChessBoard 7 0 5 0 = Ok false <->
   ~ ((7 = 5 \/ 0 = 0) /\ between_empty (board new_ChessBoard) 7 0 5 0)).
Proof.
  apply (rook_move_legality new_ChessBoard 7 0 5 0
           (new_Piece WHITE ROOK)).
  all: first [ vm_compute; reflexivity
             | intros q H; vm_compute in H; discriminate H
             | split; [vm_compute; reflexivity
                      | vm_compute; repeat constructor] ].
Defined.

Lemma bishop_move_legality_witness :
  (is_valid_move new_ChessBoard 7 2 5 4 = Ok true <->
   Z.abs (5 - 7) = Z.abs (4 - 2) /\ between_empty (board new_ChessBoard) 7 2 5 4) /\
  (is_valid_move new_ChessBoard 7 2 5 4 = Ok false <->
   ~ (Z.abs (5 - 7) = Z.abs (4 - 2) /\ between_empty (board new_ChessBoard) 7 2 5 4)).
Proof.
  apply (bishop_move_legality new_ChessBoard 7 2 5 4
           (new_Piece WHITE BISHOP)).
  all: first [ vm_compute; reflexivity
             | intros q H; vm_compute in H; discriminate H
             | split; [vm_compute; reflexivity
                      | vm_compute; repeat constructor] ].
Defined.

Lemma queen_move_legality_witness :
  (is_valid_move new_ChessBoard 7 3 5 3 = Ok true <->
   aligned 7 3 5 3 /\ between_empty (board new_ChessBoard) 7 3 5 3) /\
  (is_valid_move new_ChessBoard 7 3 5 3 = Ok false <->
   ~ (aligned 7 3 5 3 /\ between_empty (board new_ChessBoard) 7 3 5 3)).
Proof.
  apply (queen_move_legality new_ChessBoard 7 3 5 3
           (new_Piece WHITE QUEEN)).
  all: first [ vm_compute; reflexivity
             | intros q H; vm_compute in H; discriminate H
             | split; [vm_compute; reflexivity
                      | vm_compute; repeat constructor] ].
Defined.

Lemma knight_move_legality_witness :
  (is_valid_move new_ChessBoard 7 1 5 2 = Ok true <->
   (Z.abs (5 - 7) = 2 /\ Z.abs (2 - 1) = 1) \/
   (Z.abs (5 - 7) = 1 /\ Z.abs (2 - 1) = 2)) /\
  (is_valid_move new_ChessBoard 7 1 5 2 = Ok false <->
   ~ ((Z.abs (5 - 7) = 2 /\ Z.abs (2 - 1) = 1) \/
   (Z.abs (5 - 7) = 1 /\ Z.abs (2 - 1) = 2))).
Proof.
  apply (knight_move_legality new_ChessBoard 7 1 5 2
           (new_Piece WHITE KNIGHT)).
  all: first [ vm_compute; reflexivity
             | intros q H; vm_compute in H; discriminate H
             | split; [vm_compute; reflexivity
                      | vm_compute; repeat constructor] ].
Defined.

Lemma king_move_legality_witness :
  (is_valid_move new_ChessBoard 7 4 5 4 = Ok true <->
   Z.abs (5 - 7) <= 1 /\ Z.abs (4 - 4) <= 1) /\
  (is_valid_move new_ChessBoard 7 4 5 4 = Ok false <->
   ~ (Z.abs (5 - 7) <= 1 /\ Z.abs (4 - 4) <= 1)).
Proof.
  apply (king_move_legality new_ChessBoard 7 4 5 4
           (new_Piece WHITE KING)).
  all: first [ vm_compute; reflexivity
             | intros q H; vm_compute in H; discriminate H
             | split; [vm_compute; reflexivity
                      | vm_compute; repeat constructor] ].
Defined.

(** The sliding pieces on a board where the way is open: after e2-e4 and
    e7-e5 the white Queen may go to h5 and the Bishop to c4, and neither
    may go through the pawns next to them. *)
Example sliding_moves_after_two_pawn_moves :
  let s := fst (play_moves [mv "e2" "e4"; mv "e7" "e5"] new_ChessBoard) in
  is_valid_move s 7 3 3 7 = Ok true /\
  is_valid_move s 7 5 4 2 = Ok true /\
  is_valid_move s 7 3 5 3 = Ok false /\
  is_valid_move s 7 0 5 0 = Ok false /\
  is_valid_move s 7 6 5 5 = Ok true.
Proof. vm_compute. repeat split. Qed.

(** ** Where [find_king] looks *)

(** A scan that returns: the element it returned on, and the elements
    before it, which did not return. *)
Lemma for_in_returns {A R} (l : list A) (f : A -> Result (option R))
    (v : R) :
  for_in l f = Ok (Some v) ->
  exists l1 x l2,
    l = l1 ++ x :: l2 /\ f x = Ok (Some v) /\
    forall y, y ∈ l1 -> f y = Ok None.
Proof.
  induction l as [|a l IH]; [discriminate|]. cbn [for_in].
  destruct (f a) as [[w|]|e] eqn:E; try discriminate.
  - intros [= ->]. exists [], a, l. split; [reflexivity|].
    split; [exact E|]. intros y Hy. apply elem_of_nil in Hy. contradiction.
  - intros H. destruct (IH H) as (l1 & x & l2 & -> & Hx & Hb).
    exists (a :: l1), x, l2. split; [reflexivity|]. split; [exact Hx|].
    intros y Hy. apply elem_of_cons in Hy. destruct Hy as [->|Hy];
      [exact E | exact (Hb y Hy)].
Qed.

(** A scan that goes through: no element returned. *)
Lemma for_in_falls_through {A R} (l : list A) (f : A -> Result (option R)) :
  for_in l f = Ok None -> forall y, y ∈ l -> f y = Ok None.
Proof.
  induction l as [|a l IH]; intros H y Hy.
  - apply elem_of_nil in Hy. contradiction.
  - cbn [for_in] in H. destruct (f a) as [[w|]|e] eqn:E; try discriminate.
    apply elem_of_cons in Hy. destruct Hy as [->|Hy];
      [exact E | exact (IH H y Hy)].
Qed.

(** The elements of [range(8)] before a given one are the smaller ones. *)
Lemma range8_split (l1 l2 : list Z) (x : Z) :
  range8 = l1 ++ x :: l2 ->
  0 <= x < 8 /\ forall y, 0 <= y < x -> y ∈ l1.
Proof.
  unfold range8. intros H.
  do 8 (destruct l1 as [|? l1];
        [injection H as <- <-; split; [lia|];
         intros y Hy; rewrite ?elem_of_cons; lia
        |injection H as <- H]).
  destruct l1; discriminate.
Qed.

Lemma range8_elem (x : Z) : x ∈ range8 <-> 0 <= x < 8.
Proof. unfold range8. rewrite !elem_of_cons, elem_of_nil. lia. Qed.

Section FindKing.

Variable self : ChessBoard.
Variable c : Color.
Hypothesis Hwf : wf_board (board self).

(** The test of [find_king] on one cell. *)
Lemma find_king_test (row col : Z) (r : option (Z * Z)) :
  in_bounds row col = true ->
  (let? piece := board_get (board self) row col in
   match piece with
   | Some p =>
       if PieceType_eqb (piece_type p) KING && Color_eqb (color p) c
       then Ok (Some (row, col))
       else Ok None
   | None => Ok None
   end) = Ok r ->
  (r = Some (row, col) /\ king_at (board self) c row col)
  \/ (r = None /\ ~ king_at (board self) c row col).
Proof.
  intros Hb. rewrite (board_get_cell _ Hwf) by exact Hb. cbn [rbind].
  unfold king_at.
  destruct (cell (board self) row col) as [p|].
  - destruct (PieceType_eqb (piece_type p) KING && Color_eqb (color p) c)
      eqn:E; intros [= <-].
    + left. split; [reflexivity|]. exists p.
      apply andb_true_iff in E. destruct E as [E1 E2].
      apply Color_eqb_eq in E2.
      split; [reflexivity|]. split; [|exact E2].
      destruct (piece_type p); try discriminate. reflexivity.
    + right. split; [reflexivity|]. intros (q & [= <-] & Hk & Hc).
      rewrite Hk, Hc, Color_eqb_refl in E. discriminate.
  - intros [= <-]. right. split; [reflexivity|].
    intros (q & [=] & _).
Qed.

Lemma find_king_outcomes :
  (forall row col,
     find_king self c = Ok (row, col) ->
     in_bounds row col = true /\
     king_at (board self) c row col /\
     forall row' col',
       in_bounds row' col' = true ->
       scanned_before row' col' row col ->
       ~ king_at (board self) c row' col') /\
  (forall e,
     find_king self c = Raise e ->
     e = ValueError /\
     forall row col,
       in_bounds row col = true -> ~ king_at (board self) c row col).
Proof.
  split.
  - intros row col. unfold find_king.
    match goal with
    | |- rbind ?m _ = _ -> _ => destruct m as [[[r k]|]|e] eqn:E
    end; cbn [rbind]; try discriminate.
    intros [= -> ->].
    destruct (for_in_returns _ _ _ E) as (l1 & x & l2 & Hl & Hx & Hbefore).
    destruct (range8_split _ _ _ Hl) as [Hxr Hl1].
    destruct (for_in_returns _ _ _ Hx) as (m1 & y & m2 & Hm & Hy & Hrow).
    destruct (range8_split _ _ _ Hm) as [Hyr Hm1].
    assert (Hb : in_bounds x y = true) by (apply in_bounds_spec; lia).
    destruct (find_king_test x y _ Hb Hy) as [[[= <- <-] Hk]|[[=] _]].
    split; [exact Hb|]. split; [exact Hk|].
    intros row' col' Hb' Hlt. apply in_bounds_spec in Hb'.
    destruct Hlt as [Hlt|[-> Hlt]].
    + specialize (Hbefore row' (Hl1 row' ltac:(lia))).
      pose proof (for_in_falls_through _ _ Hbefore col'
                    (proj2 (range8_elem col') ltac:(lia))) as Hc.
      destruct (find_king_test row' col' _ ltac:(apply in_bounds_spec; lia)
                  Hc) as [[[=] _]|[_ Hn]].
      exact Hn.
    + pose proof (Hrow col' (Hm1 col' ltac:(lia))) as Hc.
      destruct (find_king_test row col' _ ltac:(apply in_bounds_spec; lia)
                  Hc) as [[[=] _]|[_ Hn]].
      exact Hn.
  - intros e He. split; [exact (find_king_error self c e Hwf He)|].
    intros row col Hb. unfold find_king in He.
    match type of He with
    | rbind ?m _ = _ => destruct m as [[[r k]|]|e'] eqn:E
    end; cbn [rbind] in He; try discriminate.
    + apply in_bounds_spec in Hb.
      pose proof (for_in_falls_through _ _ E row
                    (proj2 (range8_elem row) ltac:(lia))) as Hr.
      pose proof (for_in_falls_through _ _ Hr col
                    (proj2 (range8_elem col) ltac:(lia))) as Hc.
      destruct (find_king_test row col _ ltac:(apply in_bounds_spec; lia)
                  Hc) as [[[=] _]|[_ Hn]].
      exact Hn.
    + exfalso.
      assert (Hm : exists o,
                 for_in range8 (fun row =>
                   for_in range8 (fun col =>
                     let? piece := board_get (board self) row col in
                     match piece with
                     | Some p =>
                         if PieceType_eqb (piece_type p) KING
                            && Color_eqb (color p) c
                         then Ok (Some (row, col))
                         else Ok None
                     | None => Ok None
                     end)) = Ok o).
      { apply for_in_total. intros row' Hrow.
        apply for_in_total. intros col' Hcol.
        rewrite (board_get_cell _ Hwf)
          by (apply range8_in_bounds; assumption).
        cbn [rbind].
        destruct (cell (board self) row' col') as [p|]; [|eauto].
        destruct (PieceType_eqb (piece_type p) KING
                  && Color_eqb (color p) c); eauto. }
      destruct Hm as (o & Ho). congruence.
Qed.

(** A King of the colour on the board is enough for [find_king] to
    answer. *)
Lemma find_king_finds (row col : Z) :
  in_bounds row col = true ->
  king_at (board self) c row col ->
  exists rc, find_king self c = Ok rc.
Proof.
  intros Hb Hk. destruct (find_king self c) as [rc|e] eqn:E; [eauto|].
  exfalso. destruct find_king_outcomes as [_ H].
  destruct (H e E) as [_ Hn]. exact (Hn row col Hb Hk).
Qed.

End FindKing.

(** X12 -- [find_king] answers the first cell, in scan order, that holds a King
    of the colour asked for, and raises [ValueError] exactly when the
    board holds none. *)
Theorem find_king_first_king (self : ChessBoard) (c : Color) :
  wf_board (board self) ->
  (forall row col,
     find_king self c = Ok (row, col) ->
     in_bounds row col = true /\
     king_at (board self) c row col /\
     forall row' col',
       in_bounds row' col' = true ->
       scanned_before row' col' row col ->
       ~ king_at (board self) c row' col') /\
  (forall e,
     find_king self c = Raise e ->
     e = ValueError /\
     forall row col,
       in_bounds row col = true -> ~ king_at (board self) c row col).
Proof. intros Hwf. exact (find_king_outcomes self c Hwf). Qed.

Lemma find_king_first_king_witness :
  (forall row col,
     find_king new_ChessBoard BLACK = Ok (row, col) ->
     in_bounds row col = true /\
     king_at (board new_ChessBoard) BLACK row col /\
     forall row' col',
       in_bounds row' col' = true ->
       scanned_before row' col' row col ->
       ~ king_at (board new_ChessBoard) BLACK row' col') /\
  (forall e,
     find_king new_ChessBoard BLACK = Raise e ->
     e = ValueError /\
     forall row col,
       in_bounds row col = true ->
       ~ king_at (board new_ChessBoard) BLACK row col).
Proof.
  apply (find_king_first_king new_ChessBoard BLACK).
  split; [vm_compute; reflexivity | vm_compute; repeat constructor].
Defined.

(** With two Kings of one colour on the board the one scanned first is
    answered: here the white King of a second set, put on a8. *)
Example find_king_two_kings :
  find_king
    (with_board new_ChessBoard
       (set_cell (board new_ChessBoard) 0 0 (Some (new_Piece WHITE KING))))
    WHITE = Ok (0, 0).
Proof. vm_compute. reflexivity. Qed.

(** ** What a call of [move_piece] does *)

Lemma wf_tentative_board (b : Board) (fr fc tr tc : Z) :
  wf_board b -> wf_board (tentative_board b fr fc tr tc).
Proof.
  intros Hwf. unfold tentative_board. repeat apply wf_set_cell. exact Hwf.
Qed.

Lemma cell_tentative_board (b : Board) (fr fc tr tc row col : Z) :
  wf_board b ->
  in_bounds fr fc = true -> in_bounds tr tc = true ->
  in_bounds row col = true ->
  cell (tentative_board b fr fc tr tc) row col =
  if decide (fr = row /\ fc = col) then None
  else if decide (tr = row /\ tc = col) then cell b fr fc
  else cell b row col.
Proof.
  intros Hwf Hf Ht Hb. unfold tentative_board.
  rewrite (cell_set_cell _ (wf_set_cell _ Hwf _ _ _)) by assumption.
  rewrite (cell_set_cell _ Hwf) by assumption. reflexivity.
Qed.

Lemma cell_committed_board (b : Board) (fr fc tr tc row col : Z)
    (p : Piece) :
  wf_board b ->
  in_bounds fr fc = true -> in_bounds tr tc = true ->
  in_bounds row col = true ->
  cell (committed_board b fr fc tr tc p) row col =
  if decide (tr = row /\ tc = col) then Some (mark_moved p)
  else if decide (fr = row /\ fc = col) then None
  else cell b row col.
Proof.
  intros Hwf Hf Ht Hb. unfold committed_board.
  pose proof (wf_set_cell _ Hwf tr tc (Some p)) as Hwf1.
  pose proof (wf_set_cell _ Hwf1 fr fc None) as Hwf2.
  rewrite (cell_set_cell _ Hwf2), (cell_set_cell _ Hwf1),
    (cell_set_cell _ Hwf) by assumption.
  repeat destruct (decide _); try reflexivity; tauto.
Qed.

(** A valid move neither takes the mover's King nor leaves it behind: the
    King is on the board after the simulated move if it was before. *)
Lemma king_survives_simulation (s : ChessBoard) (fr fc tr tc : Z)
    (rc : Z * Z) :
  wf_board (board s) ->
  find_king s (current_player s) = Ok rc ->
  is_valid_move s fr fc tr tc = Ok true ->
  exists rc',
    find_king (with_board s (tentative_board (board s) fr fc tr tc))
              (current_player s) = Ok rc'.
Proof.
  intros Hwf Hk Hv. destruct rc as [kr kc].
  destruct (find_king_outcomes s (current_player s) Hwf) as [Hfound _].
  destruct (Hfound kr kc Hk) as (Hkb & (k & Hkc & Hkt & Hkcol) & _).
  destruct (is_valid_move_central s fr fc tr tc Hwf Hv)
    as (Hf & Ht & Hne & p & Hp & Hpc & Hdest).
  assert (Hwf2 : wf_board
                   (board (with_board s
                             (tentative_board (board s) fr fc tr tc))))
    by (cbn [board with_board]; apply wf_tentative_board; exact Hwf).
  destruct (decide (fr = kr /\ fc = kc)) as [[-> ->]|Hnf].
  - apply (find_king_finds _ _ Hwf2 tr tc Ht).
    exists k. cbn [board with_board].
    rewrite cell_tentative_board by assumption.
    destruct (decide (kr = tr /\ kc = tc)) as [[-> ->]|_]; [congruence|].
    destruct (decide (tr = tr /\ tc = tc)) as [_|Hn]; [|tauto].
    auto.
  - apply (find_king_finds _ _ Hwf2 kr kc Hkb).
    exists k. cbn [board with_board].
    rewrite cell_tentative_board by assumption.
    destruct (decide (fr = kr /\ fc = kc)) as [|_]; [tauto|].
    destruct (decide (tr = kr /\ tc = kc)) as [[-> ->]|_]; [|auto].
    exfalso. apply (Hdest k Hkc). congruence.
Qed.

(** The outcome of a call, step by step. *)
Lemma move_piece_spec (from_pos to_pos : str) (s : ChessBoard) :
  wf_board (board s) ->
  match parse_positions from_pos to_pos with
  | Raise e => move_piece from_pos to_pos s = (s, Raise e)
  | Ok None => move_piece from_pos to_pos s = (s, Ok false)
  | Ok (Some ((fr, fc), (tr, tc))) =>
      (is_valid_move s fr fc tr tc = Ok false /\
       move_piece from_pos to_pos s = (s, Ok false))
      \/ (is_valid_move s fr fc tr tc = Ok true /\
          exists p,
            cell (board s) fr fc = Some p /\
            let s2 :=
              with_board s (tentative_board (board s) fr fc tr tc) in
            match find_king s2 (current_player s) with
            | Ok _ =>
                move_piece from_pos to_pos s
                = (committed_state s from_pos to_pos fr fc tr tc p, Ok true)
            | Raise _ =>
                move_piece from_pos to_pos s = (s2, Raise ValueError)
            end)
  end.
Proof.
  intros Hwf. unfold move_piece, mbind, query, mret.
  destruct (parse_positions from_pos to_pos)
    as [[[[fr fc] [tr tc]]|]|e] eqn:Ep; try reflexivity.
  destruct (parse_positions_in_bounds _ _ _ _ _ _ Ep) as [Hf Ht].
  destruct (is_valid_move_total s fr fc tr tc Hwf) as ([|] & Ev);
    rewrite Ev; cbn [negb]; [right | left; split; reflexivity].
  split; [reflexivity|].
  destruct (is_valid_move_central s fr fc tr tc Hwf Ev)
    as (_ & _ & _ & p & Hp & _).
  exists p. split; [exact Hp|]. cbn zeta.
  pose proof (would_be_in_check_after_move_outcome fr fc tr tc s Hwf Hf Ht)
    as Ho.
  cbn zeta in Ho.
  destruct (find_king _ _) as [rc|e]; rewrite Ho; [|reflexivity].
  unfold read_cell, query, mraise.
  rewrite !(board_get_cell _ Hwf) by assumption.
  rewrite write_cell_in_bounds by assumption.
  rewrite write_cell_in_bounds
    by (try apply wf_set_cell; cbn [board with_board]; assumption).
  rewrite Hp.
  rewrite write_cell_in_bounds
    by (repeat apply wf_set_cell; cbn [board with_board]; assumption).
  reflexivity.
Qed.

Lemma position_to_coords_raises (p : str) (e : Exn) :
  position_to_coords p = Raise e -> e = ValueError \/ e = TypeError.
Proof.
  unfold position_to_coords.
  destruct p as [|c0 [|c1 [|c2 p]]]; try (intros [= <-]; left; reflexivity).
  unfold py_ord, py_int.
  destruct (py_lower c0) as [|x [|y l]]; cbn [rbind];
    try (intros [= <-]; right; reflexivity).
  destruct ((48 <=? c1)%N && (c1 <=? 57)%N); cbn [rbind];
    [|intros [= <-]; left; reflexivity].
  destruct (negb _); [intros [= <-]; left; reflexivity | discriminate].
Qed.

Lemma parse_positions_raises (from_pos to_pos : str) (e : Exn) :
  parse_positions from_pos to_pos = Raise e -> e = TypeError.
Proof.
  unfold parse_positions.
  destruct (position_to_coords from_pos) as [f|e1] eqn:E1.
  - destruct (position_to_coords to_pos) as [t|e2] eqn:E2; [discriminate|].
    destruct (position_to_coords_raises _ _ E2) as [-> | ->];
      [discriminate|]. intros [= <-]. reflexivity.
  - destruct (position_to_coords_raises _ _ E1) as [-> | ->];
      [discriminate|]. intros [= <-]. reflexivity.
Qed.

Lemma other_color_neq (a b : Color) : a <> b -> a = other_color b.
Proof. destruct a, b; cbn; congruence. Qed.

(** X13 -- The four outcomes of [move_piece] on an 8x8 board: the move is
    refused and nothing changed; the move is committed; a position string
    made [ord] raise [TypeError] and nothing changed; or the King of the
    player to move is not on the board after the simulated move,
    [ValueError] escapes and the simulated move stays on the board. *)
Theorem move_piece_outcomes (from_pos to_pos : str) (s s' : ChessBoard)
    (r : Result bool) :
  wf_board (board s) ->
  move_piece from_pos to_pos s = (s', r) ->
  (r = Ok false /\ s' = s)
  \/ (r = Ok true /\
      exists fr fc tr tc p,
        position_to_coords from_pos = Ok (fr, fc) /\
        position_to_coords to_pos = Ok (tr, tc) /\
        is_valid_move s fr fc tr tc = Ok true /\
        cell (board s) fr fc = Some p /\
        s' = committed_state s from_pos to_pos fr fc tr tc p)
  \/ (r = Raise TypeError /\ s' = s)
  \/ (r = Raise ValueError /\
      exists fr fc tr tc,
        position_to_coords from_pos = Ok (fr, fc) /\
        position_to_coords to_pos = Ok (tr, tc) /\
        is_valid_move s fr fc tr tc = Ok true /\
        s' = with_board s (tentative_board (board s) fr fc tr tc) /\
        forall row col,
          in_bounds row col = true ->
          ~ king_at (board s') (current_player s) row col).
Proof.
  intros Hwf Hm. pose proof (move_piece_spec from_pos to_pos s Hwf) as Hs.
  destruct (parse_positions from_pos to_pos)
    as [[[[fr fc] [tr tc]]|]|e] eqn:Ep.
  - apply parse_positions_some in Ep. destruct Ep as [Ef Et].
    destruct Hs as [[Hv Hs]|(Hv & p & Hp & Hs)].
    + left. rewrite Hs in Hm. injection Hm as <- <-. split; reflexivity.
    + cbn zeta in Hs.
      destruct (find_king _ _) as [rc|e] eqn:Ek; rewrite Hs in Hm;
        injection Hm as <- <-.
      * right. left. split; [reflexivity|].
        exists fr, fc, tr, tc, p. repeat split; assumption.
      * right. right. right. split; [reflexivity|].
        exists fr, fc, tr, tc. repeat split; try assumption.
        intros row col Hb.
        assert (Hwf2 : wf_board
                         (board (with_board s
                                   (tentative_board (board s) fr fc tr tc))))
          by (cbn [board with_board]; apply wf_tentative_board; exact Hwf).
        destruct (find_king_outcomes _ (current_player s) Hwf2) as [_ Hn].
        destruct (Hn e Ek) as [_ Hnone]. exact (Hnone row col Hb).
  - left. rewrite Hs in Hm. injection Hm as <- <-. split; reflexivity.
  - right. right. left. rewrite Hs in Hm. injection Hm as <- <-.
    rewrite (parse_positions_raises _ _ _ Ep). split; reflexivity.
Qed.

Lemma move_piece_outcomes_witness :
  (Ok true = Ok false /\
   fst (move_piece (pystr "e2") (pystr "e4") new_ChessBoard)
   = new_ChessBoard)
  \/ (Ok true = Ok true /\
      exists fr fc tr tc p,
        position_to_coords (pystr "e2") = Ok (fr, fc) /\
        position_to_coords (pystr "e4") = Ok (tr, tc) /\
        is_valid_move new_ChessBoard fr fc tr tc = Ok true /\
        cell (board new_ChessBoard) fr fc = Some p /\
        fst (move_piece (pystr "e2") (pystr "e4") new_ChessBoard)
        = committed_state new_ChessBoard (pystr "e2") (pystr "e4")
            fr fc tr tc p)
  \/ (Ok true = Raise TypeError /\
      fst (move_piece (pystr "e2") (pystr "e4") new_ChessBoard)
      = new_ChessBoard)
  \/ (Ok true = Raise ValueError /\
      exists fr fc tr tc,
        position_to_coords (pystr "e2") = Ok (fr, fc) /\
        position_to_coords (pystr "e4") = Ok (tr, tc) /\
        is_valid_move new_ChessBoard fr fc tr tc = Ok true /\
        fst (move_piece (pystr "e2") (pystr "e4") new_ChessBoard)
        = with_board new_ChessBoard
            (tentative_board (board new_ChessBoard) fr fc tr tc) /\
        forall row col,
          in_bounds row col = true ->
          ~ king_at
              (board (fst (move_piece (pystr "e2") (pystr "e4")
                             new_ChessBoard)))
              (current_player new_ChessBoard) row col).
Proof.
  apply (move_piece_outcomes (pystr "e2") (pystr "e4") new_ChessBoard).
  - split; [vm_compute; reflexivity | vm_compute; repeat constructor].
  - vm_compute. reflexivity.
Defined.

(** X14 -- A committed move changes two cells: the origin becomes empty, the
    destination holds the moved piece with [has_moved] set, and every
    other cell holds what it held. *)
Theorem move_piece_moves_one_piece (from_pos to_pos : str)
    (s s' : ChessBoard) :
  wf_board (board s) ->
  move_piece from_pos to_pos s = (s', Ok true) ->
  exists fr fc tr tc p,
    position_to_coords from_pos = Ok (fr, fc) /\
    position_to_coords to_pos = Ok (tr, tc) /\
    cell (board s) fr fc = Some p /\
    cell (board s') fr fc = None /\
    cell (board s') tr tc = Some (mark_moved p) /\
    forall row col,
      in_bounds row col = true ->
      (row, col) <> (fr, fc) -> (row, col) <> (tr, tc) ->
      cell (board s') row col = cell (board s) row col.
Proof.
  intros Hwf Hm.
  destruct (move_piece_commit _ _ _ _ Hwf Hm)
    as (fr & fc & tr & tc & p & Ef & Et & Hv & Hp & ->).
  pose proof (position_to_coords_in_bounds _ _ _ Ef) as Hf.
  pose proof (position_to_coords_in_bounds _ _ _ Et) as Ht.
  destruct (is_valid_move_central s fr fc tr tc Hwf Hv)
    as (_ & _ & Hne & _).
  exists fr, fc, tr, tc, p. cbn [board].
  split; [exact Ef|]. split; [exact Et|]. split; [exact Hp|].
  split; [|split].
  - rewrite cell_committed_board by assumption.
    destruct (decide (tr = fr /\ tc = fc)) as [[-> ->]|_]; [congruence|].
    destruct (decide (fr = fr /\ fc = fc)); [reflexivity | tauto].
  - rewrite cell_committed_board by assumption.
    destruct (decide (tr = tr /\ tc = tc)); [reflexivity | tauto].
  - intros row col Hb H1 H2.
    rewrite cell_committed_board by assumption.
    destruct (decide (tr = row /\ tc = col)) as [[-> ->]|_]; [congruence|].
    destruct (decide (fr = row /\ fc = col)) as [[-> ->]|_]; [congruence|].
    reflexivity.
Qed.

Lemma move_piece_moves_one_piece_witness :
  exists fr fc tr tc p,
    position_to_coords (pystr "e2") = Ok (fr, fc) /\
    position_to_coords (pystr "e4") = Ok (tr, tc) /\
    cell (board new_ChessBoard) fr fc = Some p /\
    cell (board (fst (move_piece (pystr "e2") (pystr "e4") new_ChessBoard)))
         fr fc = None /\
    cell (board (fst (move_piece (pystr "e2") (pystr "e4") new_ChessBoard)))
         tr tc = Some (mark_moved p) /\
    forall row col,
      in_bounds row col = true ->
      (row, col) <> (fr, fc) -> (row, col) <> (tr, tc) ->
      cell (board (fst (move_piece (pystr "e2") (pystr "e4")
                          new_ChessBoard))) row col
      = cell (board new_ChessBoard) row col.
Proof.
  apply (move_piece_moves_one_piece (pystr "e2") (pystr "e4")
           new_ChessBoard).
  - split; [vm_compute; reflexivity | vm_compute; repeat constructor].
  - vm_compute. reflexivity.
Defined.

(** X15 -- A committed move appends one record to the history and gives the turn
    to the other colour.  The record holds the two position strings as they
    were passed, the moved piece, which is of the colour that was to move,
    and what the destination held: nothing, or a piece of the colour that
    is to move next. *)
Theorem move_piece_records_move (from_pos to_pos : str)
    (s s' : ChessBoard) :
  wf_board (board s) ->
  move_piece from_pos to_pos s = (s', Ok true) ->
  current_player s' = other_color (current_player s) /\
  exists (p : Piece) (captured : option Piece) (tr tc : Z),
    move_history s' =
    move_history s ++
    [{| mr_from := from_pos; mr_to := to_pos;
        mr_piece := mark_moved p; mr_captured := captured |}] /\
    color p = current_player s /\
    position_to_coords to_pos = Ok (tr, tc) /\
    captured = cell (board s) tr tc /\
    forall q, captured = Some q -> color q = current_player s'.
Proof.
  intros Hwf Hm.
  destruct (move_piece_commit _ _ _ _ Hwf Hm)
    as (fr & fc & tr & tc & p & Ef & Et & Hv & Hp & ->).
  destruct (is_valid_move_central s fr fc tr tc Hwf Hv)
    as (_ & _ & _ & p' & Hp' & Hc & Hd).
  assert (p' = p) as -> by congruence.
  cbn [current_player move_history]. split; [reflexivity|].
  exists p, (cell (board s) tr tc), tr, tc.
  split; [reflexivity|]. split; [exact Hc|]. split; [exact Et|].
  split; [reflexivity|].
  intros q Hq. apply other_color_neq. rewrite <- Hc. exact (Hd q Hq).
Qed.

Lemma move_piece_records_move_witness :
  current_player (fst (move_piece (pystr "e2") (pystr "e4") new_ChessBoard))
  = other_color (current_player new_ChessBoard) /\
  exists (p : Piece) (captured : option Piece) (tr tc : Z),
    move_history (fst (move_piece (pystr "e2") (pystr "e4") new_ChessBoard))
    = move_history new_ChessBoard ++
      [{| mr_from := pystr "e2"; mr_to := pystr "e4";
          mr_piece := mark_moved p; mr_captured := captured |}] /\
    color p = current_player new_ChessBoard /\
    position_to_coords (pystr "e4") = Ok (tr, tc) /\
    captured = cell (board new_ChessBoard) tr tc /\
    forall q,
      captured = Some q ->
      color q
      = current_player
          (fst (move_piece (pystr "e2") (pystr "e4") new_ChessBoard)).
Proof.
  apply (move_piece_records_move (pystr "e2") (pystr "e4") new_ChessBoard).
  - split; [vm_compute; reflexivity | vm_compute; repeat constructor].
  - vm_compute. reflexivity.
Defined.

(** X16 -- Whatever the outcome of a call, the board stays eight rows of eight
    cells. *)
Theorem move_piece_keeps_shape (from_pos to_pos : str) (s : ChessBoard) :
  wf_board (board s) ->
  wf_board (board (fst (move_piece from_pos to_pos s))).
Proof.
  intros Hwf. pose proof (move_piece_spec from_pos to_pos s Hwf) as Hs.
  destruct (parse_positions from_pos to_pos)
    as [[[[fr fc] [tr tc]]|]|e]; try (rewrite Hs; exact Hwf).
  destruct Hs as [[_ ->]|(_ & p & _ & Hs)]; [exact Hwf|].
  cbn zeta in Hs. destruct (find_king _ _); rewrite Hs; cbn [fst board].
  - apply wf_committed_board. exact Hwf.
  - apply wf_tentative_board. exact Hwf.
Qed.

Lemma move_piece_keeps_shape_witness :
  wf_board
    (board (fst (move_piece (pystr "e2") (pystr "e4") new_ChessBoard))).
Proof.
  apply (move_piece_keeps_shape (pystr "e2") (pystr "e4") new_ChessBoard).
  split; [vm_compute; reflexivity | vm_compute; repeat constructor].
Defined.

(** X17 -- The test that decides: when the King of the player to move is on the
    board, [move_piece] commits exactly the moves [is_valid_move] accepts;
    the simulation that follows never refuses one. *)
Theorem move_piece_commits_iff_valid (from_pos to_pos : str)
    (s : ChessBoard) (fr fc tr tc : Z) (rc : Z * Z) :
  wf_board (board s) ->
  find_king s (current_player s) = Ok rc ->
  position_to_coords from_pos = Ok (fr, fc) ->
  position_to_coords to_pos = Ok (tr, tc) ->
  (snd (move_piece from_pos to_pos s) = Ok true <->
   is_valid_move s fr fc tr tc = Ok true) /\
  (snd (move_piece from_pos to_pos s) = Ok false <->
   is_valid_move s fr fc tr tc = Ok false).
Proof.
  intros Hwf Hk Ef Et.
  pose proof (move_piece_spec from_pos to_pos s Hwf) as Hs.
  rewrite (proj2 (parse_positions_some from_pos to_pos _ _) (conj Ef Et))
    in Hs.
  destruct Hs as [[Hv ->]|(Hv & p & _ & Hs)].
  - rewrite Hv. cbn [snd]. split; split; congruence.
  - cbn zeta in Hs.
    destruct (king_survives_simulation s fr fc tr tc rc Hwf Hk Hv)
      as (rc' & Ek).
    rewrite Ek in Hs. rewrite Hs, Hv. cbn [snd].
    split; split; congruence.
Qed.

Lemma move_piece_commits_iff_valid_witness :
  (snd (move_piece (pystr "e2") (pystr "e4") new_ChessBoard) = Ok true <->
   is_valid_move new_ChessBoard 6 4 4 4 = Ok true) /\
  (snd (move_piece (pystr "e2") (pystr "e4") new_ChessBoard) = Ok false <->
   is_valid_move new_ChessBoard 6 4 4 4 = Ok false).
Proof.
  apply (move_piece_commits_iff_valid (pystr "e2") (pystr "e4")
           new_ChessBoard 6 4 4 4 (7, 4)).
  - split; [vm_compute; reflexivity | vm_compute; repeat constructor].
  - vm_compute. reflexivity.
  - reflexivity.
  - reflexivity.
Defined.

(** ** Invariants of a game *)

(** X18 -- Turn alternation: in every reachable state White is to move exactly
    when the history holds an even number of moves. *)
Theorem reachable_turn_parity (s : ChessBoard) :
  reachable s ->
  current_player s
  = if Nat.even (length (move_history s)) then WHITE else BLACK.
Proof.
  induction 1 as [|s s' f t Hr IH Hm]; [reflexivity|].
  destruct (move_piece_commit _ _ _ _ (reachable_wf s Hr) Hm)
    as (fr & fc & tr & tc & p & _ & _ & _ & _ & ->).
  cbn [current_player move_history]. rewrite IH.
  rewrite length_app. cbn [length]. rewrite Nat.add_1_r, Nat.even_succ.
  rewrite <- Nat.negb_even.
  destruct (Nat.even (length (move_history s))); reflexivity.
Qed.

Lemma reachable_turn_parity_witness :
  let s := fst (move_piece (pystr "e2") (pystr "e4") new_ChessBoard) in
  current_player s
  = if Nat.even (length (move_history s)) then WHITE else BLACK.
Proof.
  apply (reachable_turn_parity
           (fst (move_piece (pystr "e2") (pystr "e4") new_ChessBoard))).
  apply (reachable_move new_ChessBoard _ (pystr "e2") (pystr "e4"));
    [exact reachable_init | vm_compute; reflexivity].
Defined.

(** X19 -- A piece whose [has_moved] flag is clear stands where [setup_board] put
    it, in every reachable state. *)
Theorem reachable_unmoved_on_initial_square (s : ChessBoard)
    (row col : Z) (q : Piece) :
  reachable s ->
  in_bounds row col = true ->
  cell (board s) row col = Some q ->
  has_moved q = false ->
  cell (board new_ChessBoard) row col = Some q.
Proof.
  intros Hr. revert row col q.
  induction Hr as [|s s' f t Hr IH Hm]; intros row col q Hb Hq Hm0.
  - exact Hq.
  - destruct (move_piece_keeps_has_moved _ _ _ _ row col q
                (reachable_wf s Hr) Hm Hb Hq) as [Hold|Hset].
    + exact (IH row col q Hb Hold Hm0).
    + congruence.
Qed.

Lemma reachable_unmoved_on_initial_square_witness :
  cell (board new_ChessBoard) 6 3 = Some (new_Piece WHITE PAWN).
Proof.
  apply (reachable_unmoved_on_initial_square
           (fst (move_piece (pystr "e2") (pystr "e4") new_ChessBoard))
           6 3 (new_Piece WHITE PAWN)).
  - apply (reachable_move new_ChessBoard _ (pystr "e2") (pystr "e4"));
      [exact reachable_init | vm_compute; reflexivity].
  - reflexivity.
  - vm_compute. reflexivity.
  - reflexivity.
Defined.

(** ** The enumeration of [is_checkmate] and [is_stalemate] *)

Lemma try_all_moves_levels (c : Color) :
  try_all_moves c =
  for_in_M range8 (fun from_row =>
    for_in_M range8 (fun from_col => try_cell c from_row from_col)).
Proof. reflexivity. Qed.

(** A loop each of whose iterations leaves the state and either goes on or
    returns [v]: it returns [v] when some iteration does, and goes through
    otherwise, the state being left as it was in both cases. *)
Lemma for_in_M_scan {A R} (l : list A) (body : A -> M (option R))
    (s : ChessBoard) (v : R) :
  (forall x, x ∈ l ->
     body x s = (s, Ok None) \/ body x s = (s, Ok (Some v))) ->
  (for_in_M l body s = (s, Ok (Some v)) /\
   exists x, x ∈ l /\ body x s = (s, Ok (Some v)))
  \/ (for_in_M l body s = (s, Ok None) /\
      forall x, x ∈ l -> body x s = (s, Ok None)).
Proof.
  induction l as [|a l IH]; intros H.
  - right. split; [reflexivity|]. intros x Hx.
    apply elem_of_nil in Hx. contradiction.
  - cbn [for_in_M]. unfold mbind.
    destruct (H a ltac:(left)) as [Ea|Ea]; rewrite Ea.
    + destruct IH as [[E (x & Hx & Ex)]|[E Hall]].
      * intros x Hx. apply H. right. exact Hx.
      * left. split; [exact E|]. exists x. split; [right; exact Hx | exact Ex].
      * right. split; [exact E|]. intros x Hx.
        apply elem_of_cons in Hx. destruct Hx as [->|Hx]; [exact Ea|].
        exact (Hall x Hx).
    + left. split; [reflexivity|]. exists a. split; [left | exact Ea].
Qed.

(** The same for a loop inside a loop. *)
Lemma for_in_M_scan2 {A B R} (la : list A) (lb : list B)
    (body : A -> B -> M (option R)) (s : ChessBoard) (v : R) :
  (forall x y, x ∈ la -> y ∈ lb ->
     body x y s = (s, Ok None) \/ body x y s = (s, Ok (Some v))) ->
  (for_in_M la (fun x => for_in_M lb (body x)) s = (s, Ok (Some v)) /\
   exists x y, x ∈ la /\ y ∈ lb /\ body x y s = (s, Ok (Some v)))
  \/ (for_in_M la (fun x => for_in_M lb (body x)) s = (s, Ok None) /\
      forall x y, x ∈ la -> y ∈ lb -> body x y s = (s, Ok None)).
Proof.
  intros H.
  destruct (for_in_M_scan la (fun x => for_in_M lb (body x)) s v)
    as [[E (x & Hx & Ex)]|[E Hall]].
  - intros x Hx.
    destruct (for_in_M_scan lb (body x) s v (fun y => H x y Hx))
      as [[E _]|[E _]]; [right | left]; exact E.
  - left. split; [exact E|].
    destruct (for_in_M_scan lb (body x) s v (fun y => H x y Hx))
      as [[_ (y & Hy & Ey)]|[E' _]]; [|congruence].
    exists x, y. auto.
  - right. split; [exact E|]. intros x y Hx Hy.
    destruct (for_in_M_scan lb (body x) s v (fun y => H x y Hx))
      as [[E' _]|[_ Hall']].
    + rewrite (Hall x Hx) in E'. discriminate.
    + exact (Hall' y Hy).
Qed.

(** A loop whose iterations leave the state when they do not raise leaves
    the state when it does not raise. *)
Lemma for_in_M_frame {A R} (l : list A) (body : A -> M (option R))
    (s s' : ChessBoard) (r : option R) :
  (forall x s1 r1, body x s = (s1, Ok r1) -> s1 = s) ->
  for_in_M l body s = (s', Ok r) -> s' = s.
Proof.
  intros H. induction l as [|a l IH]; cbn [for_in_M].
  - unfold mret. congruence.
  - unfold mbind. destruct (body a s) as [s1 [[w|]|e]] eqn:Ea.
    + rewrite (H a s1 _ Ea). unfold mret. congruence.
    + rewrite (H a s1 _ Ea). exact IH.
    + discriminate.
Qed.

Section Enumeration.

Variable s : ChessBoard.
Hypothesis Hwf : wf_board (board s).

Lemma try_move_frame (fr fc tr tc : Z) (s1 : ChessBoard)
    (r : option bool) :
  try_move fr fc tr tc s = (s1, Ok r) -> s1 = s.
Proof.
  unfold try_move, mbind, query, mret.
  destruct (is_valid_move s fr fc tr tc) as [[|]|e] eqn:Ev;
    try congruence.
  destruct (is_valid_move_central s fr fc tr tc Hwf Ev) as (Hf & Ht & _).
  rewrite would_be_in_check_after_move_spec by assumption. cbn zeta.
  destruct (is_in_check _ _) as [[|]|e]; cbn [negb]; congruence.
Qed.

(** The enumeration leaves the state as it was when it does not raise. *)
Lemma try_all_moves_frame (c : Color) (s1 : ChessBoard) (r : option bool) :
  try_all_moves c s = (s1, Ok r) -> s1 = s.
Proof.
  rewrite try_all_moves_levels.
  apply for_in_M_frame. intros fr s2 r2.
  apply for_in_M_frame. intros fc s3 r3.
  unfold try_cell, mbind, read_cell, query.
  destruct (board_get (board s) fr fc) as [[p|]|e]; try discriminate.
  - destruct (Color_eqb (color p) c).
    + apply for_in_M_frame. intros tr s4 r4.
      apply for_in_M_frame. intros tc s5 r5.
      apply try_move_frame.
    + unfold mret. congruence.
  - unfold mret. congruence.
Qed.

(** With the King of the player to move on the board, a candidate makes
    the enumeration return [False] exactly when [is_valid_move] accepts
    it. *)
Lemma try_move_king_present (fr fc tr tc : Z) (rc : Z * Z) :
  find_king s (current_player s) = Ok rc ->
  (is_valid_move s fr fc tr tc = Ok false /\
   try_move fr fc tr tc s = (s, Ok None))
  \/ (is_valid_move s fr fc tr tc = Ok true /\
      try_move fr fc tr tc s = (s, Ok (Some false))).
Proof.
  intros Hk. unfold try_move, mbind, query, mret.
  destruct (is_valid_move_total s fr fc tr tc Hwf) as ([|] & Ev);
    rewrite Ev; [right | left; split; reflexivity].
  split; [reflexivity|].
  destruct (is_valid_move_central s fr fc tr tc Hwf Ev) as (Hf & Ht & _).
  pose proof (would_be_in_check_after_move_outcome fr fc tr tc s Hwf Hf Ht)
    as Ho.
  cbn zeta in Ho.
  destruct (king_survives_simulation s fr fc tr tc rc Hwf Hk Ev)
    as (rc' & Ek).
  rewrite Ek in Ho. rewrite Ho. reflexivity.
Qed.

Lemma try_moves_from_king_present (fr fc : Z) (rc : Z * Z) :
  find_king s (current_player s) = Ok rc ->
  (try_moves_from fr fc s = (s, Ok (Some false)) /\
   exists tr tc, is_valid_move s fr fc tr tc = Ok true)
  \/ (try_moves_from fr fc s = (s, Ok None) /\
      forall tr tc, is_valid_move s fr fc tr tc <> Ok true).
Proof.
  intros Hk. unfold try_moves_from.
  destruct (for_in_M_scan2 range8 range8 (try_move fr fc) s false)
    as [[E (tr & tc & _ & _ & Ex)]|[E Hall]].
  - intros tr tc _ _.
    destruct (try_move_king_present fr fc tr tc rc Hk) as [[_ H]|[_ H]];
      [left | right]; exact H.
  - left. split; [exact E|]. exists tr, tc.
    destruct (try_move_king_present fr fc tr tc rc Hk) as [[_ H]|[H _]];
      [congruence | exact H].
  - right. split; [exact E|]. intros tr tc Hv.
    destruct (is_valid_move_central s fr fc tr tc Hwf Hv) as (_ & Ht & _).
    apply in_bounds_spec in Ht.
    specialize (Hall tr tc (proj2 (range8_elem tr) ltac:(lia))
                  (proj2 (range8_elem tc) ltac:(lia))).
    destruct (try_move_king_present fr fc tr tc rc Hk) as [[H _]|[_ H]];
      congruence.
Qed.

Lemma try_cell_king_present (fr fc : Z) (rc : Z * Z) :
  in_bounds fr fc = true ->
  find_king s (current_player s) = Ok rc ->
  (try_cell (current_player s) fr fc s = (s, Ok (Some false)) /\
   exists tr tc, is_valid_move s fr fc tr tc = Ok true)
  \/ (try_cell (current_player s) fr fc s = (s, Ok None) /\
      forall tr tc, is_valid_move s fr fc tr tc <> Ok true).
Proof.
  intros Hb Hk. unfold try_cell, mbind, read_cell, query.
  rewrite (board_get_cell _ Hwf) by exact Hb.
  destruct (cell (board s) fr fc) as [p|] eqn:Ep.
  - destruct (Color_eqb (color p) (current_player s)) eqn:Ec.
    + exact (try_moves_from_king_present fr fc rc Hk).
    + right. split; [reflexivity|]. intros tr tc Hv.
      destruct (is_valid_move_central s fr fc tr tc Hwf Hv)
        as (_ & _ & _ & p' & Hp' & Hc & _).
      assert (p' = p) as -> by congruence.
      rewrite Hc, Color_eqb_refl in Ec. discriminate.
  - right. split; [reflexivity|]. intros tr tc Hv.
    destruct (is_valid_move_central s fr fc tr tc Hwf Hv)
      as (_ & _ & _ & p' & Hp' & _). congruence.
Qed.

(** For the colour to move, with its King on the board, the enumeration
    returns [False] when some move is valid and goes through when none
    is. *)
Lemma try_all_moves_king_present (rc : Z * Z) :
  find_king s (current_player s) = Ok rc ->
  (try_all_moves (current_player s) s = (s, Ok (Some false)) /\
   exists fr fc tr tc, is_valid_move s fr fc tr tc = Ok true)
  \/ (try_all_moves (current_player s) s = (s, Ok None) /\
      forall fr fc tr tc, is_valid_move s fr fc tr tc <> Ok true).
Proof.
  intros Hk. rewrite try_all_moves_levels.
  destruct (for_in_M_scan2 range8 range8 (try_cell (current_player s))
              s false) as [[E (fr & fc & Hfr & Hfc & Ex)]|[E Hall]].
  - intros fr fc Hfr Hfc.
    destruct (try_cell_king_present fr fc rc
                (range8_in_bounds _ _ Hfr Hfc) Hk) as [[H _]|[H _]];
      [right | left]; exact H.
  - left. split; [exact E|]. exists fr, fc.
    destruct (try_cell_king_present fr fc rc
                (range8_in_bounds _ _ Hfr Hfc) Hk) as [[_ H]|[H _]];
      [exact H | congruence].
  - right. split; [exact E|]. intros fr fc tr tc Hv.
    destruct (is_valid_move_central s fr fc tr tc Hwf Hv) as (Hf & _).
    pose proof Hf as Hf'. apply in_bounds_spec in Hf'.
    specialize (Hall fr fc (proj2 (range8_elem fr) ltac:(lia))
                  (proj2 (range8_elem fc) ltac:(lia))).
    destruct (try_cell_king_present fr fc rc Hf Hk) as [[H _]|[_ H]];
      [congruence | exact (H tr tc Hv)].
Qed.

(** For a colour that is not to move the enumeration finds nothing: each
    of its pieces fails the turn test of [is_valid_move]. *)
Lemma try_all_moves_other_player (c : Color) :
  c <> current_player s ->
  try_all_moves c s = (s, Ok None).
Proof.
  intros Hc. rewrite try_all_moves_levels.
  assert (Hcell : forall fr fc, fr ∈ range8 -> fc ∈ range8 ->
                    try_cell c fr fc s = (s, Ok None)).
  { intros fr fc Hfr Hfc. unfold try_cell, mbind, read_cell, query.
    pose proof (range8_in_bounds _ _ Hfr Hfc) as Hb.
    rewrite (board_get_cell _ Hwf) by exact Hb.
    destruct (cell (board s) fr fc) as [p|] eqn:Ep; [|reflexivity].
    destruct (Color_eqb (color p) c) eqn:Ec; [|reflexivity].
    apply Color_eqb_eq in Ec. unfold try_moves_from.
    destruct (for_in_M_scan2 range8 range8 (try_move fr fc) s false)
      as [[_ (tr & tc & _ & _ & Ex)]|[E _]]; [| |exact E].
    - intros tr tc _ _. left. unfold try_move, mbind, query.
      rewrite (is_valid_move_not_turn s fr fc tr tc p);
        [reflexivity | | congruence].
      rewrite get_piece_cell by assumption. rewrite Ep. reflexivity.
    - exfalso. unfold try_move, mbind, query in Ex.
      rewrite (is_valid_move_not_turn s fr fc tr tc p) in Ex;
        [discriminate | | congruence].
      rewrite get_piece_cell by assumption. rewrite Ep. reflexivity. }
  destruct (for_in_M_scan2 range8 range8 (try_cell c) s false)
    as [[_ (fr & fc & Hfr & Hfc & Ex)]|[E _]]; [| |exact E].
  - intros fr fc Hfr Hfc. left. exact (Hcell fr fc Hfr Hfc).
  - rewrite (Hcell fr fc Hfr Hfc) in Ex. discriminate.
Qed.

End Enumeration.

(** ** What check detection and the terminal queries answer *)

Lemma for_in_scan {A R} (l : list A) (f : A -> Result (option R)) (v : R) :
  (forall x, x ∈ l -> f x = Ok None \/ f x = Ok (Some v)) ->
  (for_in l f = Ok (Some v) /\ exists x, x ∈ l /\ f x = Ok (Some v))
  \/ (for_in l f = Ok None /\ forall x, x ∈ l -> f x = Ok None).
Proof.
  induction l as [|a l IH]; intros H.
  - right. split; [reflexivity|]. intros x Hx.
    apply elem_of_nil in Hx. contradiction.
  - cbn [for_in]. destruct (H a ltac:(left)) as [Ea|Ea]; rewrite Ea.
    + destruct IH as [[E (x & Hx & Ex)]|[E Hall]].
      * intros x Hx. apply H. right. exact Hx.
      * left. split; [exact E|]. exists x. split; [right; exact Hx | exact Ex].
      * right. split; [exact E|]. intros x Hx.
        apply elem_of_cons in Hx. destruct Hx as [->|Hx]; [exact Ea|].
        exact (Hall x Hx).
    + left. split; [reflexivity|]. exists a. split; [left | exact Ea].
Qed.

Lemma for_in_scan2 {A B R} (la : list A) (lb : list B)
    (f : A -> B -> Result (option R)) (v : R) :
  (forall x y, x ∈ la -> y ∈ lb ->
     f x y = Ok None \/ f x y = Ok (Some v)) ->
  (for_in la (fun x => for_in lb (f x)) = Ok (Some v) /\
   exists x y, x ∈ la /\ y ∈ lb /\ f x y = Ok (Some v))
  \/ (for_in la (fun x => for_in lb (f x)) = Ok None /\
      forall x y, x ∈ la -> y ∈ lb -> f x y = Ok None).
Proof.
  intros H.
  destruct (for_in_scan la (fun x => for_in lb (f x)) v)
    as [[E (x & Hx & Ex)]|[E Hall]].
  - intros x Hx.
    destruct (for_in_scan lb (f x) v (fun y => H x y Hx))
      as [[E _]|[E _]]; [right | left]; exact E.
  - left. split; [exact E|].
    destruct (for_in_scan lb (f x) v (fun y => H x y Hx))
      as [[_ (y & Hy & Ey)]|[E' _]]; [|congruence].
    exists x, y. auto.
  - right. split; [exact E|]. intros x y Hx Hy.
    destruct (for_in_scan lb (f x) v (fun y => H x y Hx))
      as [[E' _]|[_ Hall']].
    + rewrite (Hall x Hx) in E'. discriminate.
    + exact (Hall' y Hy).
Qed.

(** The test of [is_in_check] on one cell: it returns exactly when
    [is_valid_move] accepts the move onto the King's square and the cell
    holds a piece of another colour than the one asked about. *)
Lemma is_in_check_test (s : ChessBoard) (c : Color) (row col kr kc : Z) :
  wf_board (board s) ->
  in_bounds row col = true ->
  let test :=
    let? piece := board_get (board s) row col in
    match piece with
    | Some p =>
        if negb (Color_eqb (color p) c) then
          let? v := is_valid_move s row col kr kc in
          if v then Ok (Some true) else Ok None
        else Ok None
    | None => Ok None
    end in
  (test = Ok (Some true) /\
   c <> current_player s /\ is_valid_move s row col kr kc = Ok true)
  \/ (test = Ok None /\
      (c = current_player s \/ is_valid_move s row col kr kc <> Ok true)).
Proof.
  intros Hwf Hb. cbn zeta.
  rewrite (board_get_cell _ Hwf) by exact Hb. cbn [rbind].
  destruct (cell (board s) row col) as [p|] eqn:Ep.
  - destruct (Color_eqb (color p) c) eqn:Ec; cbn [negb].
    + right. split; [reflexivity|]. apply Color_eqb_eq in Ec.
      destruct (Color_eqb c (current_player s)) eqn:En;
        [left; apply Color_eqb_eq; exact En|].
      apply Color_eqb_neq in En. right. intros Hv.
      destruct (is_valid_move_central s row col kr kc Hwf Hv)
        as (_ & _ & _ & p' & Hp' & Hc & _).
      congruence.
    + destruct (is_valid_move_total s row col kr kc Hwf) as ([|] & Ev);
        rewrite Ev; cbn [rbind].
      * left. split; [reflexivity|]. split; [|reflexivity].
        destruct (is_valid_move_central s row col kr kc Hwf Ev)
          as (_ & _ & _ & p' & Hp' & Hc & _).
        apply Color_eqb_neq in Ec. congruence.
      * right. split; [reflexivity|]. right. congruence.
  - right. split; [reflexivity|]. right. intros Hv.
    destruct (is_valid_move_central s row col kr kc Hwf Hv)
      as (_ & _ & _ & p' & Hp' & _). congruence.
Qed.

Lemma is_in_check_answer (s : ChessBoard) (c : Color) (kr kc : Z) :
  wf_board (board s) ->
  find_king s c = Ok (kr, kc) ->
  exists v,
    is_in_check s c = Ok v /\
    (v = true <->
     c <> current_player s /\
     exists row col, is_valid_move s row col kr kc = Ok true).
Proof.
  intros Hwf Hk. unfold is_in_check. rewrite Hk. cbn [rbind].
  destruct (for_in_scan2 range8 range8
              (fun row col =>
                 let? piece := board_get (board s) row col in
                 match piece with
                 | Some p =>
                     if negb (Color_eqb (color p) c) then
                       let? v := is_valid_move s row col kr kc in
                       if v then Ok (Some true) else Ok None
                     else Ok None
                 | None => Ok None
                 end) true) as [[E (row & col & Hr & Hc & Ex)]|[E Hall]].
  - intros row col Hr Hc.
    destruct (is_in_check_test s c row col kr kc Hwf
                (range8_in_bounds _ _ Hr Hc)) as [[H _]|[H _]];
      [right | left]; exact H.
  - rewrite E. cbn [rbind]. exists true. split; [reflexivity|].
    split; [|reflexivity]. intros _.
    destruct (is_in_check_test s c row col kr kc Hwf
                (range8_in_bounds _ _ Hr Hc)) as [[_ [Hn Hv]]|[H _]].
    + split; [exact Hn|]. exists row, col. exact Hv.
    + cbn zeta in H. congruence.
  - rewrite E. cbn [rbind]. exists false. split; [reflexivity|].
    split; [discriminate|]. intros [Hn (row & col & Hv)]. exfalso.
    destruct (is_valid_move_central s row col kr kc Hwf Hv) as (Hb & _).
    pose proof Hb as Hb'. apply in_bounds_spec in Hb'.
    specialize (Hall row col (proj2 (range8_elem row) ltac:(lia))
                  (proj2 (range8_elem col) ltac:(lia))).
    destruct (is_in_check_test s c row col kr kc Hwf Hb)
      as [[H _]|[_ [H|H]]]; cbn zeta in *; congruence.
Qed.

(** X20 -- What [is_in_check] answers.  On an 8x8 board with the King of colour
    [c] found on [(kr, kc)], [is_in_check(c)] is [True] exactly when [c]
    is not the colour to move and [is_valid_move] accepts some move onto
    the King's square; for the colour to move it is [False]. *)
Theorem is_in_check_turn (s : ChessBoard) (c : Color) (kr kc : Z) :
  wf_board (board s) ->
  find_king s c = Ok (kr, kc) ->
  (is_in_check s c = Ok true <->
   c <> current_player s /\
   exists row col, is_valid_move s row col kr kc = Ok true) /\
  (is_in_check s c = Ok false <->
   ~ (c <> current_player s /\
      exists row col, is_valid_move s row col kr kc = Ok true)).
Proof.
  intros Hwf Hk. apply answer_iff. exact (is_in_check_answer s c kr kc Hwf Hk).
Qed.

Lemma is_in_check_turn_witness :
  (is_in_check new_ChessBoard BLACK = Ok true <->
   BLACK <> current_player new_ChessBoard /\
   exists row col, is_valid_move new_ChessBoard row col 0 4 = Ok true) /\
  (is_in_check new_ChessBoard BLACK = Ok false <->
   ~ (BLACK <> current_player new_ChessBoard /\
      exists row col, is_valid_move new_ChessBoard row col 0 4 = Ok true)).
Proof.
  apply (is_in_check_turn new_ChessBoard BLACK 0 4).
  - split; [vm_compute; reflexivity | vm_compute; repeat constructor].
  - vm_compute. reflexivity.
Defined.

(** X21 -- When the King is not on the board check detection and both terminal
    queries raise [ValueError], the state untouched. *)
Theorem queries_without_king (s : ChessBoard) (c : Color) (e : Exn) :
  wf_board (board s) ->
  find_king s c = Raise e ->
  is_in_check s c = Raise ValueError /\
  is_checkmate c s = (s, Raise ValueError) /\
  is_stalemate c s = (s, Raise ValueError).
Proof.
  intros Hwf Hk.
  assert (E : is_in_check s c = Raise ValueError).
  { unfold is_in_check. rewrite Hk. cbn [rbind].
    rewrite (find_king_error s c e Hwf Hk). reflexivity. }
  split; [exact E|].
  unfold is_checkmate, is_stalemate, mbind, query. rewrite E.
  split; reflexivity.
Qed.

Lemma queries_without_king_witness :
  let s :=
    with_board new_ChessBoard (set_cell (board new_ChessBoard) 7 4 None) in
  is_in_check s WHITE = Raise ValueError /\
  is_checkmate WHITE s = (s, Raise ValueError) /\
  is_stalemate WHITE s = (s, Raise ValueError).
Proof.
  apply (queries_without_king
           (with_board new_ChessBoard
              (set_cell (board new_ChessBoard) 7 4 None))
           WHITE ValueError).
  - split; [vm_compute; reflexivity | vm_compute; repeat constructor].
  - vm_compute. reflexivity.
Defined.

(** X22 -- The terminal queries leave the state as they found it whenever they
    return. *)
Theorem terminal_queries_leave_state (s s' : ChessBoard) (c : Color)
    (v : bool) :
  wf_board (board s) ->
  is_checkmate c s = (s', Ok v) \/ is_stalemate c s = (s', Ok v) ->
  s' = s.
Proof.
  intros Hwf.
  unfold is_checkmate, is_stalemate, mbind, query, mret.
  destruct (is_in_check s c) as [[|]|e]; cbn [negb].
  - destruct (try_all_moves c s) as [s1 [[w|]|e]] eqn:E.
    + pose proof (try_all_moves_frame s Hwf c s1 _ E) as Hfr.
      intros [H|H]; congruence.
    + pose proof (try_all_moves_frame s Hwf c s1 _ E) as Hfr.
      intros [H|H]; congruence.
    + intros [H|H]; congruence.
  - destruct (try_all_moves c s) as [s1 [[w|]|e]] eqn:E.
    + pose proof (try_all_moves_frame s Hwf c s1 _ E) as Hfr.
      intros [H|H]; congruence.
    + pose proof (try_all_moves_frame s Hwf c s1 _ E) as Hfr.
      intros [H|H]; congruence.
    + intros [H|H]; congruence.
  - intros [H|H]; congruence.
Qed.

Lemma terminal_queries_leave_state_witness :
  fst (is_stalemate WHITE new_ChessBoard) = new_ChessBoard.
Proof.
  apply (terminal_queries_leave_state new_ChessBoard _ WHITE false).
  - split; [vm_compute; reflexivity | vm_compute; repeat constructor].
  - right. vm_compute. reflexivity.
Defined.

(** X23 -- For the colour that is not to move the enumeration adds nothing:
    [is_checkmate(c)] answers what [is_in_check(c)] answers and
    [is_stalemate(c)] answers the opposite, whatever moves that colour
    would have. *)
Theorem terminal_queries_other_player (s : ChessBoard) (c : Color) :
  wf_board (board s) ->
  c <> current_player s ->
  is_checkmate c s = (s, is_in_check s c) /\
  is_stalemate c s = (s, let? v := is_in_check s c in Ok (negb v)).
Proof.
  intros Hwf Hc.
  pose proof (try_all_moves_other_player s Hwf c Hc) as Ht.
  unfold is_checkmate, is_stalemate, mbind, query, mret.
  destruct (is_in_check s c) as [[|]|e]; cbn [negb rbind];
    rewrite ?Ht; split; reflexivity.
Qed.

Lemma terminal_queries_other_player_witness :
  is_checkmate BLACK new_ChessBoard
  = (new_ChessBoard, is_in_check new_ChessBoard BLACK) /\
  is_stalemate BLACK new_ChessBoard
  = (new_ChessBoard,
     let? v := is_in_check new_ChessBoard BLACK in Ok (negb v)).
Proof.
  apply (terminal_queries_other_player new_ChessBoard BLACK).
  - split; [vm_compute; reflexivity | vm_compute; repeat constructor].
  - vm_compute. discriminate.
Defined.

(** On the initial board, with all its moves ahead, Black is reported
    stalemated as long as White is to move. *)
Example initial_position_black_stalemate :
  is_stalemate BLACK new_ChessBoard = (new_ChessBoard, Ok true) /\
  is_stalemate WHITE new_ChessBoard = (new_ChessBoard, Ok false).
Proof. vm_compute. split; reflexivity. Qed.

(** X24 -- For the colour to move, with its King on the board, [is_checkmate]
    answers [False], and [is_stalemate] answers [True] exactly when
    [is_valid_move] accepts no move at all. *)
Theorem terminal_queries_side_to_move (s : ChessBoard) (rc : Z * Z) :
  wf_board (board s) ->
  find_king s (current_player s) = Ok rc ->
  is_checkmate (current_player s) s = (s, Ok false) /\
  exists b,
    is_stalemate (current_player s) s = (s, Ok b) /\
    (b = true <->
     forall fr fc tr tc, is_valid_move s fr fc tr tc <> Ok true).
Proof.
  intros Hwf Hk.
  assert (E : is_in_check s (current_player s) = Ok false).
  { destruct (is_in_check_total s (current_player s) rc Hwf Hk)
      as ([|] & Ev); [|exact Ev].
    exfalso. exact (is_in_check_current_player s Ev). }
  unfold is_checkmate, is_stalemate, mbind, query, mret. rewrite E.
  cbn [negb]. split; [reflexivity|].
  destruct (try_all_moves_king_present s Hwf rc Hk)
    as [[-> (fr & fc & tr & tc & Hv)]|[-> Hnone]].
  - exists false. split; [reflexivity|]. split; [discriminate|].
    intros H. exfalso. exact (H fr fc tr tc Hv).
  - exists true. split; [reflexivity|]. split; [|reflexivity].
    intros _. exact Hnone.
Qed.

Lemma terminal_queries_side_to_move_witness :
  is_checkmate (current_player new_ChessBoard) new_ChessBoard
  = (new_ChessBoard, Ok false) /\
  exists b,
    is_stalemate (current_player new_ChessBoard) new_ChessBoard
    = (new_ChessBoard, Ok b) /\
    (b = true <->
     forall fr fc tr tc,
       is_valid_move new_ChessBoard fr fc tr tc <> Ok true).
Proof.
  apply (terminal_queries_side_to_move new_ChessBoard (7, 4)).
  - split; [vm_compute; reflexivity | vm_compute; repeat constructor].
  - vm_compute. reflexivity.
Defined.

(** ** What [display_board] prints *)

(** The symbol tells colour and kind: two cells are printed alike only if
    both are empty or hold pieces of the same colour and kind. *)
Lemma cell_symbol_inj (o1 o2 : option Piece) :
  cell_symbol o1 = cell_symbol o2 -> piece_view o1 = piece_view o2.
Proof.
  destruct o1 as [[c1 t1 m1]|], o2 as [[c2 t2 m2]|]; cbn;
    try destruct c1; try destruct t1; try destruct c2; try destruct t2;
    cbn; intros H; try reflexivity; discriminate H.
Qed.

Lemma display_cells_text (b : Board) (row : Z) (cols : list Z) :
  wf_board b ->
  (forall col, col ∈ cols -> in_bounds row col = true) ->
  display_cells b row cols
  = (flat_map (fun col => [cell_symbol (cell b row col); 32%N]) cols, Ok tt).
Proof.
  intros Hwf. induction cols as [|col cols IH]; intros Hin; [reflexivity|].
  cbn [display_cells flat_map].
  rewrite (board_get_cell _ Hwf) by (apply Hin; left).
  rewrite IH by (intros c Hc; apply Hin; right; exact Hc).
  destruct (cell b row col) as [p|]; reflexivity.
Qed.

Lemma display_rows_text (b : Board) (rows : list Z) :
  wf_board b ->
  (forall row, row ∈ rows -> 0 <= row < 8) ->
  display_rows b rows = (flat_map (display_line b) rows, Ok tt).
Proof.
  intros Hwf. induction rows as [|row rows IH]; intros Hin; [reflexivity|].
  cbn [display_rows flat_map].
  rewrite display_cells_text.
  - rewrite IH by (intros r Hr; apply Hin; right; exact Hr).
    unfold display_line. rewrite <- !app_assoc. reflexivity.
  - exact Hwf.
  - intros col Hc. apply in_bounds_spec.
    pose proof (Hin row ltac:(left)). apply range8_elem in Hc. lia.
Qed.

(** On an 8x8 board [display_board] raises nothing and prints the text of
    the cells. *)
Lemma display_board_text (self : ChessBoard) :
  wf_board (board self) ->
  display_board self
  = (display_text (board self) (current_player self), Ok tt).
Proof.
  intros Hwf. unfold display_board, display_text.
  rewrite display_rows_text;
    [|exact Hwf | intros row Hr; apply range8_elem; exact Hr].
  reflexivity.
Qed.

Lemma display_text_cell (b : Board) (c : Color) (row col : Z) :
  in_bounds row col = true ->
  display_text b c !! Z.to_nat (21 + 21 * row + 2 * col)
  = Some (cell_symbol (cell b row col)).
Proof.
  intros Hb. apply in_bounds_spec in Hb.
  assert (Hr : row ∈ range8) by (apply range8_elem; lia).
  assert (Hc : col ∈ range8) by (apply range8_elem; lia).
  unfold range8 in Hr, Hc.
  rewrite !elem_of_cons, elem_of_nil in Hr, Hc. clear Hb.
  repeat (destruct Hr as [->|Hr]); try contradiction;
    repeat (destruct Hc as [->|Hc]); try contradiction;
    vm_compute; reflexivity.
Qed.

(** X25 -- The display of an 8x8 board.  [display_board] raises nothing and
    prints 205 characters of grid followed by the line of the player to
    move; the character for cell [(row, col)] is at index
    [21 + 21 * row + 2 * col] of the text, and it is the symbol of the piece
    the cell holds, or a middle dot. *)
Theorem display_board_shows_cells (self : ChessBoard) :
  wf_board (board self) ->
  snd (display_board self) = Ok tt /\
  (exists grid,
     length grid = 205%nat /\
     fst (display_board self) =
     grid ++ 10%N :: pystr "Current player: "
          ++ Color_title (current_player self) ++ [10%N]) /\
  forall row col,
    in_bounds row col = true ->
    fst (display_board self) !! Z.to_nat (21 + 21 * row + 2 * col)
    = Some (cell_symbol (cell (board self) row col)).
Proof.
  intros Hwf. rewrite (display_board_text self Hwf). cbn [fst snd].
  split; [reflexivity|]. split.
  - exists (take 205 (display_text (board self) (current_player self))).
    split; vm_compute; reflexivity.
  - intros row col Hb. apply display_text_cell. exact Hb.
Qed.

Lemma display_board_shows_cells_witness :
  snd (display_board new_ChessBoard) = Ok tt /\
  (exists grid,
     length grid = 205%nat /\
     fst (display_board new_ChessBoard) =
     grid ++ 10%N :: pystr "Current player: "
          ++ Color_title (current_player new_ChessBoard) ++ [10%N]) /\
  forall row col,
    in_bounds row col = true ->
    fst (display_board new_ChessBoard) !! Z.to_nat (21 + 21 * row + 2 * col)
    = Some (cell_symbol (cell (board new_ChessBoard) row col)).
Proof.
  apply (display_board_shows_cells new_ChessBoard).
  split; [vm_compute; reflexivity | vm_compute; repeat constructor].
Defined.

Lemma display_text_player (b1 b2 : Board) (c1 c2 : Color) :
  display_text b1 c1 = display_text b2 c2 -> c1 = c2.
Proof.
  intros H. apply (f_equal (drop 222)) in H.
  destruct c1, c2; try reflexivity; vm_compute in H; discriminate H.
Qed.

(** X26 -- Two 8x8 boards are displayed alike only if every cell holds the same
    colour and kind of piece, or nothing, in both, and the same player is
    to move; the display does not show [has_moved]. *)
Theorem display_board_injective (s1 s2 : ChessBoard) :
  wf_board (board s1) -> wf_board (board s2) ->
  fst (display_board s1) = fst (display_board s2) ->
  current_player s1 = current_player s2 /\
  forall row col,
    in_bounds row col = true ->
    piece_view (cell (board s1) row col)
    = piece_view (cell (board s2) row col).
Proof.
  intros Hwf1 Hwf2.
  rewrite (display_board_text s1 Hwf1), (display_board_text s2 Hwf2).
  cbn [fst]. intros Heq. split.
  - exact (display_text_player _ _ _ _ Heq).
  - intros row col Hb. apply cell_symbol_inj.
    pose proof (display_text_cell (board s1) (current_player s1) row col Hb)
      as H1.
    pose proof (display_text_cell (board s2) (current_player s2) row col Hb)
      as H2.
    rewrite Heq in H1. congruence.
Qed.

Lemma display_board_injective_witness :
  current_player new_ChessBoard = current_player new_ChessBoard /\
  forall row col,
    in_bounds row col = true ->
    piece_view (cell (board new_ChessBoard) row col)
    = piece_view (cell (board new_ChessBoard) row col).
Proof.
  apply (display_board_injective new_ChessBoard new_ChessBoard).
  - split; [vm_compute; reflexivity | vm_compute; repeat constructor].
  - split; [vm_compute; reflexivity | vm_compute; repeat constructor].
  - reflexivity.
Defined.

(** The display of the initial position. *)
Example display_board_initial :
  display_board new_ChessBoard
  = ([10; 32; 32; 97; 32; 98; 32; 99; 32; 100; 32; 101; 32; 102; 32; 103;
      32; 104; 10;
      56; 32; 9820; 32; 9822; 32; 9821; 32; 9819; 32; 9818; 32; 9821; 32;
      9822; 32; 9820; 32; 32; 56; 10;
      55; 32; 9823; 32; 9823; 32; 9823; 32; 9823; 32; 9823; 32; 9823; 32;
      9823; 32; 9823; 32; 32; 55; 10;
      54; 32; 183; 32; 183; 32; 183; 32; 183; 32; 183; 32; 183; 32; 183; 32;
      183; 32; 32; 54; 10;
      53; 32; 183; 32; 183; 32; 183; 32; 183; 32; 183; 32; 183; 32; 183; 32;
      183; 32; 32; 53; 10;
      52; 32; 183; 32; 183; 32; 183; 32; 183; 32; 183; 32; 183; 32; 183; 32;
      183; 32; 32; 52; 10;
      51; 32; 183; 32; 183; 32; 183; 32; 183; 32; 183; 32; 183; 32; 183; 32;
      183; 32; 32; 51; 10;
      50; 32; 9817; 32; 9817; 32; 9817; 32; 9817; 32; 9817; 32; 9817; 32;
      9817; 32; 9817; 32; 32; 50; 10;
      49; 32; 9814; 32; 9816; 32; 9815; 32; 9813; 32; 9812; 32; 9815; 32;
      9816; 32; 9814; 32; 32; 49; 10;
      32; 32; 97; 32; 98; 32; 99; 32; 100; 32; 101; 32; 102; 32; 103; 32;
      104; 10;
      10; 67; 117; 114; 114; 101; 110; 116; 32; 112; 108; 97; 121; 101; 114;
      58; 32; 87; 104; 105; 116; 101; 10]%N,
     Ok tt).
Proof. vm_compute. reflexivity. Qed.
